(** * Black-Scholes pricing engine: a shallow embedding of
      [black_scholes_model.py] and the properties of its four entry points.

    Python floats are idealised as real numbers: [numpy.exp], [numpy.log],
    [numpy.sqrt] and [numpy.pi] are [exp], [ln], [sqrt] and [PI] of the
    Standard Library, a comparison is the decision procedure of the order of
    [R], and [scipy.stats.norm.cdf] is the standard normal cumulative
    distribution function, built below from the Riemann integral of the
    density.  The one effect of the float range that changes control flow,
    the [OverflowError] of a built-in float power, is modelled with the
    constructor ([__init__for]). *)

From Stdlib Require Import Reals Lra List String Sorted.
Import ListNotations.

Open Scope R_scope.

(** ** The normal distribution *)

Module norm.

(** Density of the standard normal law. *)
Definition pdf (x : R) : R := exp (- x ^ 2 / 2) / sqrt (2 * PI).

Lemma pdf_continuity : continuity pdf.
Proof.
  unfold pdf.
  assert (Hs : sqrt (2 * PI) <> 0).
  { apply Rgt_not_eq, sqrt_lt_R0. generalize PI_RGT_0. lra. }
  intro x. reg.
Qed.

Lemma pdf_even (x : R) : pdf (- x) = pdf x.
Proof. unfold pdf. replace ((- x) ^ 2) with (x ^ 2) by ring. reflexivity. Qed.

Lemma pdf_integrable (a b : R) : Riemann_integrable pdf a b.
Proof.
  destruct (Rle_dec a b) as [Hab | Hab].
  - apply continuity_implies_RiemannInt; [exact Hab |].
    intros x _. apply pdf_continuity.
  - apply RiemannInt_P1, continuity_implies_RiemannInt; [lra |].
    intros x _. apply pdf_continuity.
Defined.

(** [scipy.stats.norm.cdf]: half of the mass lies below the origin, the
    rest is the integral of the density from the origin to [x]. *)
Definition cdf (x : R) : R := 1 / 2 + RiemannInt (pdf_integrable 0 x).

End norm.

(** ** The numpy operations used on spot ranges

    A one-dimensional array is a list; a scalar operand is broadcast over
    it. *)

Module np.

Definition ndarray : Type := list R.

Definition asarray (a : list R) : ndarray := a.

Definition size (a : ndarray) : nat := List.length a.

(** [np.maximum(c, a)] *)
Definition maximum (c : R) (a : ndarray) : ndarray := map (Rmax c) a.

(** [a - c] *)
Definition sub_scalar (a : ndarray) (c : R) : ndarray :=
  map (fun x => x - c) a.

(** [c - a] *)
Definition scalar_sub (c : R) (a : ndarray) : ndarray :=
  map (fun x => c - x) a.

End np.

(** ** Exceptions and results *)

Inductive exn : Type :=
| ValueError (msg : string).

Inductive result (A : Type) : Type :=
| Ok (a : A)
| Raise (e : exn).

Arguments Ok {A} a.
Arguments Raise {A} e.

(** ** Data model *)

Record OptionGreeks : Type := mkOptionGreeks {
  delta : R;
  gamma : R;
  theta : R;
  vega : R;
  rho : R
}.

(** The five attributes [__init__] assigns from its arguments. *)
Record Attrs : Type := mkAttrs {
  time_to_maturity : R;
  strike_price : R;
  current_price : R;
  volatility : R;
  interest_rate : R
}.

(** A fully initialised instance: the five attributes with [_d1], [_d2]. *)
Record BlackScholes : Type := mkBlackScholes {
  attrs :> Attrs;
  _d1 : R;
  _d2 : R
}.

(** ** Construction *)

Definition _validate_inputs
  (time_to_maturity strike_price current_price volatility interest_rate : R)
  : result unit :=
  if Rle_dec time_to_maturity 0 then
    Raise (ValueError "Time to maturity must be positive")
  else if Rle_dec strike_price 0 then
    Raise (ValueError "Strike price must be positive")
  else if Rle_dec current_price 0 then
    Raise (ValueError "Current price must be positive")
  else if Rle_dec volatility 0 then
    Raise (ValueError "Volatility must be positive")
  else if Rlt_dec interest_rate 0 then
    Raise (ValueError "Interest rate cannot be negative")
  else Ok tt.

(** Reads the five attributes of the instance under construction. *)
Definition _calculate_d1_d2 (self : Attrs) : R * R :=
  let d1 :=
    (ln (current_price self / strike_price self)
     + (interest_rate self + 0.5 * volatility self ^ 2)
       * time_to_maturity self)
    / (volatility self * sqrt (time_to_maturity self)) in
  let d2 := d1 - volatility self * sqrt (time_to_maturity self) in
  (d1, d2).

(** The constructor in exact arithmetic, where no intermediate result
    leaves the range of the floats: validation, the five assignments, then
    [_d1] and [_d2].  What a built-in float adds to this, an [OverflowError]
    out of [self.volatility**2], is in [__init__for] below. *)
Definition __init__
  (time_to_maturity strike_price current_price volatility interest_rate : R)
  : result BlackScholes :=
  match _validate_inputs time_to_maturity strike_price current_price
          volatility interest_rate with
  | Raise e => Raise e
  | Ok _ =>
      let self :=
        mkAttrs time_to_maturity strike_price current_price volatility
          interest_rate in
      let '(d1, d2) := _calculate_d1_d2 self in
      Ok (mkBlackScholes self d1 d2)
  end.

(** ** Construction and the range of the floats

    [self.volatility**2] is the one operation of the constructor that can
    raise.  On a built-in [float] Python raises [OverflowError] when the
    square is out of the binary64 range; on a [numpy.float64], as the
    dashboard's grid loop passes, the square overflows to infinity without
    raising.  The products, the quotient, [log] and [sqrt] never raise. *)

Inductive number_type : Type :=
| builtin_float
| numpy_float64.

(** What the constructor can raise: an error of the engine's own, or the
    interpreter's [OverflowError]. *)
Inductive raised : Type :=
| Engine (e : exn)
| OverflowError.

Inductive completion (A : Type) : Type :=
| Returns (a : A)
| Raises (e : raised).

Arguments Returns {A} a.
Arguments Raises {A} e.

(** Reals from here on round to infinity in binary64: the largest float
    plus half the gap below it. *)
Definition overflow_threshold : R := 2 ^ 1024 - 2 ^ 970.

(** [x ** 2] for [x] of the given type. *)
Definition float_pow2 (ty : number_type) (x : R) : completion R :=
  match ty with
  | builtin_float =>
      if Rle_dec overflow_threshold (x ^ 2) then Raises OverflowError
      else Returns (x ^ 2)
  | numpy_float64 => Returns (x ^ 2)
  end.

(** [_calculate_d1_d2] with the type of [self.volatility] made explicit. *)
Definition _calculate_d1_d2_for (ty : number_type) (self : Attrs)
  : completion (R * R) :=
  match float_pow2 ty (volatility self) with
  | Raises e => Raises e
  | Returns volatility_squared =>
      let d1 :=
        (ln (current_price self / strike_price self)
         + (interest_rate self + 0.5 * volatility_squared)
           * time_to_maturity self)
        / (volatility self * sqrt (time_to_maturity self)) in
      let d2 := d1 - volatility self * sqrt (time_to_maturity self) in
      Returns (d1, d2)
  end.

(** [__init__] with the type of the [volatility] argument made explicit. *)
Definition __init__for (ty : number_type)
  (time_to_maturity strike_price current_price volatility interest_rate : R)
  : completion BlackScholes :=
  match _validate_inputs time_to_maturity strike_price current_price
          volatility interest_rate with
  | Raise e => Raises (Engine e)
  | Ok _ =>
      let self :=
        mkAttrs time_to_maturity strike_price current_price volatility
          interest_rate in
      match _calculate_d1_d2_for ty self with
      | Raises e => Raises e
      | Returns (d1, d2) => Returns (mkBlackScholes self d1 d2)
      end
  end.

(** ** Methods

    A method runs on the instance and hands it back with its outcome: the
    instance comes back also when the call raises. *)

Definition Method (A : Type) : Type := BlackScholes -> result A * BlackScholes.

Definition ret {A : Type} (a : A) : Method A := fun self => (Ok a, self).

Definition raise {A : Type} (e : exn) : Method A :=
  fun self => (Raise e, self).

Definition bind {A B : Type} (m : Method A) (k : A -> Method B) : Method B :=
  fun self =>
    match m self with
    | (Ok a, self') => k a self'
    | (Raise e, self') => (Raise e, self')
    end.

(** The instance the method was called on. *)
Definition this : Method BlackScholes := fun self => (Ok self, self).

Declare Scope method_scope.
Delimit Scope method_scope with method.
Notation "x <- m ;; k" := (bind m (fun x => k))
  (at level 61, m at next level, right associativity) : method_scope.

Definition outcome {A : Type} (r : result A * BlackScholes) : result A :=
  fst r.

Definition instance_after {A : Type} (r : result A * BlackScholes)
  : BlackScholes := snd r.

Definition calculate_prices : Method (R * R) :=
  (self <- this ;;
   let discount_factor :=
     exp (- interest_rate self * time_to_maturity self) in
   let call_price :=
     current_price self * norm.cdf (_d1 self)
     - strike_price self * discount_factor * norm.cdf (_d2 self) in
   let put_price :=
     strike_price self * discount_factor * norm.cdf (- _d2 self)
     - current_price self * norm.cdf (- _d1 self) in
   ret (call_price, put_price))%method.

Definition calculate_greeks : Method (OptionGreeks * OptionGreeks) :=
  (self <- this ;;
   let discount_factor :=
     exp (- interest_rate self * time_to_maturity self) in
   let sqrt_t := sqrt (time_to_maturity self) in
   let d1_pdf := exp (- _d1 self ^ 2 / 2) / sqrt (2 * PI) in
   let call_delta := norm.cdf (_d1 self) in
   let gamma := d1_pdf / (current_price self * volatility self * sqrt_t) in
   let call_theta :=
     - (current_price self * d1_pdf * volatility self / (2 * sqrt_t))
     - interest_rate self * strike_price self * discount_factor
       * norm.cdf (_d2 self) in
   let vega := current_price self * sqrt_t * d1_pdf in
   let call_rho :=
     strike_price self * time_to_maturity self * discount_factor
     * norm.cdf (_d2 self) in
   let put_delta := call_delta - 1 in
   let put_theta :=
     - (current_price self * d1_pdf * volatility self / (2 * sqrt_t))
     + interest_rate self * strike_price self * discount_factor
       * norm.cdf (- _d2 self) in
   let put_rho :=
     - strike_price self * time_to_maturity self * discount_factor
     * norm.cdf (- _d2 self) in
   let call_greeks :=
     mkOptionGreeks call_delta gamma call_theta vega call_rho in
   let put_greeks :=
     mkOptionGreeks put_delta gamma put_theta vega put_rho in
   ret (call_greeks, put_greeks))%method.

Definition calculate_pnl (spot_range : list R) (purchase_price : R)
  : Method (np.ndarray * np.ndarray) :=
  (if Rlt_dec purchase_price 0 then
     raise (ValueError "Purchase price cannot be negative")
   else
     let spot_range := np.asarray spot_range in
     if Nat.eqb (np.size spot_range) 0 then
       raise (ValueError "Spot range cannot be empty")
     else
       self <- this ;;
       let call_pnl :=
         np.sub_scalar
           (np.maximum 0 (np.sub_scalar spot_range (strike_price self)))
           purchase_price in
       let put_pnl :=
         np.sub_scalar
           (np.maximum 0 (np.scalar_sub (strike_price self) spot_range))
           purchase_price in
       ret (call_pnl, put_pnl))%method.

(** ** Sequences of calls on one instance *)

Inductive query : Type :=
| Prices
| Greeks
| Pnl (spot_range : list R) (purchase_price : R).

(** The instance left behind by one call, whatever its outcome. *)
Definition after_query (self : BlackScholes) (q : query) : BlackScholes :=
  match q with
  | Prices => instance_after (calculate_prices self)
  | Greeks => instance_after (calculate_greeks self)
  | Pnl spot_range purchase_price =>
      instance_after (calculate_pnl spot_range purchase_price self)
  end.

Definition after_queries (self : BlackScholes) (qs : list query)
  : BlackScholes := fold_left after_query qs self.

(** The instance of the reference scenario: one year to maturity, strike and
    spot at 100, volatility 0.2, rate 0.05. *)
Definition atm_attrs : Attrs := mkAttrs 1 100 100 0.2 0.05.

Definition atm_engine : BlackScholes :=
  mkBlackScholes atm_attrs (fst (_calculate_d1_d2 atm_attrs))
    (snd (_calculate_d1_d2 atm_attrs)).

(** ** Names for the specification

    Inputs that break no validation rule, the instance they produce, and
    the errors the engine raises. *)

Definition valid_inputs (T K S sigma r : R) : Prop :=
  0 < T /\ 0 < K /\ 0 < S /\ 0 < sigma /\ 0 <= r.

(** The value [__init__] returns when validation passes. *)
Definition built (T K S sigma r : R) : BlackScholes :=
  let self := mkAttrs T K S sigma r in
  mkBlackScholes self (fst (_calculate_d1_d2 self))
    (snd (_calculate_d1_d2 self)).

(** The formulas of the specification for the two prices, as a function of
    the five inputs and of the terms [d1] and [d2]. *)
Definition prices_from (inputs : Attrs) (d1 d2 : R) : R * R :=
  let discount :=
    exp (- interest_rate inputs * time_to_maturity inputs) in
  (current_price inputs * norm.cdf d1
   - strike_price inputs * discount * norm.cdf d2,
   strike_price inputs * discount * norm.cdf (- d2)
   - current_price inputs * norm.cdf (- d1)).

(** The formulas of the specification for the Greeks, as a function of the
    five inputs and of the terms [d1] and [d2]. *)
Definition greeks_from (inputs : Attrs) (d1 d2 : R)
  : OptionGreeks * OptionGreeks :=
  let discount :=
    exp (- interest_rate inputs * time_to_maturity inputs) in
  let sqrtT := sqrt (time_to_maturity inputs) in
  let pdf1 := norm.pdf d1 in
  let callDelta := norm.cdf d1 in
  let gamma :=
    pdf1 / (current_price inputs * volatility inputs * sqrtT) in
  let callTheta :=
    - (current_price inputs * pdf1 * volatility inputs) / (2 * sqrtT)
    - interest_rate inputs * strike_price inputs * discount * norm.cdf d2 in
  let vega := current_price inputs * sqrtT * pdf1 in
  let callRho :=
    strike_price inputs * time_to_maturity inputs * discount
    * norm.cdf d2 in
  let putDelta := callDelta - 1 in
  let putTheta :=
    - (current_price inputs * pdf1 * volatility inputs) / (2 * sqrtT)
    + interest_rate inputs * strike_price inputs * discount
      * norm.cdf (- d2) in
  let putRho :=
    - strike_price inputs * time_to_maturity inputs * discount
    * norm.cdf (- d2) in
  (mkOptionGreeks callDelta gamma callTheta vega callRho,
   mkOptionGreeks putDelta gamma putTheta vega putRho).

Definition maturity_error : exn :=
  ValueError "Time to maturity must be positive".
Definition strike_error : exn :=
  ValueError "Strike price must be positive".
Definition spot_error : exn :=
  ValueError "Current price must be positive".
Definition volatility_error : exn :=
  ValueError "Volatility must be positive".
Definition rate_error : exn :=
  ValueError "Interest rate cannot be negative".

Definition purchase_price_error : exn :=
  ValueError "Purchase price cannot be negative".
Definition spot_range_error : exn :=
  ValueError "Spot range cannot be empty".

(** ** The numeric part of the dashboard ([app.py])

    The script takes its numbers from widgets and draws the results; what
    is modelled is the arithmetic in between: the two sample ranges, the
    nested loop that fills the price grids, and the rows picked for the
    downloadable table. *)

(** [np.linspace(start, stop, num)]: [num] evenly spaced samples with both
    ends included; a single sample is [start].  Over the reals the last
    sample [start + (num - 1) * step] is [stop] itself. *)
Definition np_linspace (start stop : R) (num : nat) : np.ndarray :=
  let div := (num - 1)%nat in
  let delta := stop - start in
  let y := map INR (seq 0 num) in
  let y :=
    if Nat.ltb 0 div then map (fun v => v * (delta / INR div)) y
    else map (fun v => v * delta) y in
  map (fun v => v + start) y.

Definition matrix : Type := list (list R).

(** [np.zeros((rows, cols))] *)
Definition np_zeros (rows cols : nat) : matrix := repeat (repeat 0 cols) rows.

(** [l[i] = v] for an index within the list; the list is left as it is
    otherwise (the loop below never writes out of range). *)
Fixpoint setitem {A : Type} (l : list A) (i : nat) (v : A) : list A :=
  match l, i with
  | [], _ => []
  | _ :: rest, O => v :: rest
  | x :: rest, Datatypes.S i' => x :: setitem rest i' v
  end.

(** [m[i, j] = v] *)
Definition setitem2 (m : matrix) (i j : nat) (v : R) : matrix :=
  match nth_error m i with
  | Some row => setitem m i (setitem row j v)
  | None => m
  end.

(** [m[i, j]], when both indices are in range. *)
Definition cell (m : matrix) (i j : nat) : option R :=
  match nth_error m i with
  | Some row => nth_error row j
  | None => None
  end.


Fixpoint enumerate_from {A : Type} (start : nat) (l : list A)
  : list (nat * A) :=
  match l with
  | [] => []
  | x :: rest => (start, x) :: enumerate_from (Datatypes.S start) rest
  end.

(** [enumerate(l)] *)
Definition enumerate {A : Type} (l : list A) : list (nat * A) :=
  enumerate_from 0 l.

(** A [for] loop over [xs] that threads the variables [st] it assigns; an
    exception raised by the body ends the loop. *)
Fixpoint for_each {A St : Type} (xs : list A) (body : A -> St -> result St)
  (st : St) : result St :=
  match xs with
  | [] => Ok st
  | x :: rest =>
      match body x st with
      | Ok st' => for_each rest body st'
      | Raise e => Raise e
      end
  end.

(** The price grids of the heat maps: one engine per volatility and spot,
    rows indexed by volatility, columns by spot. *)
Definition heatmap_prices (time_to_maturity strike interest_rate : R)
  (vol_range spot_range : np.ndarray) : result (matrix * matrix) :=
  let call_prices :=
    np_zeros (List.length vol_range) (List.length spot_range) in
  let put_prices :=
    np_zeros (List.length vol_range) (List.length spot_range) in
  for_each (enumerate vol_range)
    (fun '(i, vol) grids =>
       for_each (enumerate spot_range)
         (fun '(j, spot) '(call_prices, put_prices) =>
            match __init__ time_to_maturity strike spot vol interest_rate
            with
            | Raise e => Raise e
            | Ok bs_temp =>
                match outcome (calculate_prices bs_temp) with
                | Raise e => Raise e
                | Ok (c, p) =>
                    Ok (setitem2 call_prices i j c,
                        setitem2 put_prices i j p)
                end
            end)
         grids)
    (call_prices, put_prices).

(** The pair of prices of the engine built for one grid point. *)
Definition grid_value (T K r vol spot : R) : R * R :=
  match outcome (calculate_prices (built T K spot vol r)) with
  | Ok prices => prices
  | Raise _ => (0, 0)
  end.

(** One pass of the inner loop body: row and volatility, column and spot. *)
Definition grid_point : Type := (nat * R) * (nat * R).

Definition point_pos (w : grid_point) : nat * nat :=
  (fst (fst w), fst (snd w)).

Definition point_call (T K r : R) (w : grid_point) : R :=
  fst (grid_value T K r (snd (fst w)) (snd (snd w))).

Definition point_put (T K r : R) (w : grid_point) : R :=
  snd (grid_value T K r (snd (fst w)) (snd (snd w))).

(** The passes of the nested loop, in the order they are made. *)
Definition grid_points (vol_range spot_range : list R) : list grid_point :=
  flat_map (fun iv => map (pair iv) (enumerate spot_range))
    (enumerate vol_range).

(** ** Symmetry of the distribution function

    The primitive of the density on [[-m, m]] and its mirror image are two
    antiderivatives of the same even function, hence differ by a constant;
    evaluating at the ends and at the origin gives the reflection of the
    integral. *)

Section Reflection.
Variable m : R.
Hypothesis m_nonneg : 0 <= m.

Let bounds : - m <= m.
Proof. lra. Qed.

Let cont : forall x : R, - m <= x <= m -> continuity_pt norm.pdf x.
Proof. intros x _. apply norm.pdf_continuity. Qed.

Let P : R -> R := primitive bounds (FTC_P1 bounds cont).

Lemma primitive_integral (y : R) :
  - m <= y <= m -> P y = RiemannInt (norm.pdf_integrable (- m) y).
Proof.
  intros [Hl Hu]. unfold P, primitive.
  destruct (Rle_dec (- m) y) as [r | n]; [| contradiction].
  destruct (Rle_dec y m) as [r0 | n]; [| contradiction].
  apply RiemannInt_P5.
Qed.

Lemma mirror_antiderivative :
  antiderivative norm.pdf (fun y => - P (- y)) (- m) m.
Proof.
  split; [| exact bounds].
  intros x Hx.
  assert (Hmx : - m <= - x <= m) by lra.
  assert (HP := RiemannInt_P28 bounds cont Hmx). fold P in HP.
  assert (Hneg : derivable_pt_lim (fun y => - y) x (- 1)).
  { apply (derivable_pt_lim_opp id x 1), derivable_pt_lim_id. }
  assert (Hc := derivable_pt_lim_comp _ _ _ _ _ Hneg HP).
  assert (Hq : derivable_pt_lim (fun y => - P (- y)) x (norm.pdf x)).
  { replace (norm.pdf x) with (- (norm.pdf (- x) * - 1))
      by (rewrite norm.pdf_even; ring).
    apply (derivable_pt_lim_opp _ x _ Hc). }
  exists (exist _ (norm.pdf x) Hq). reflexivity.
Qed.

Lemma integral_reflect :
  RiemannInt (norm.pdf_integrable (- m) 0) =
    RiemannInt (norm.pdf_integrable 0 m).
Proof.
  destruct (antiderivative_Ucte norm.pdf P (fun y => - P (- y)) (- m) m
              (RiemannInt_P29 bounds cont) mirror_antiderivative)
    as [c Hc].
  assert (H0 := Hc 0 ltac:(lra)).
  assert (Hm := Hc m ltac:(lra)).
  rewrite Ropp_0 in H0.
  rewrite !primitive_integral in H0 by lra.
  rewrite (primitive_integral m), (primitive_integral (- m)) in Hm by lra.
  rewrite (RiemannInt_P9 (norm.pdf_integrable (- m) (- m))) in Hm.
  rewrite <- (RiemannInt_P26 (norm.pdf_integrable (- m) 0)
                (norm.pdf_integrable 0 m) (norm.pdf_integrable (- m) m))
    in Hm.
  lra.
Qed.
End Reflection.

Lemma integral_odd (x : R) :
  RiemannInt (norm.pdf_integrable 0 (- x)) =
    - RiemannInt (norm.pdf_integrable 0 x).
Proof.
  destruct (Rle_dec 0 x) as [Hx | Hx].
  - rewrite (RiemannInt_P8 (norm.pdf_integrable 0 (- x))
               (norm.pdf_integrable (- x) 0)).
    now rewrite (integral_reflect x Hx).
  - assert (Hm : 0 <= - x) by lra.
    assert (H := integral_reflect (- x) Hm).
    rewrite (RiemannInt_P8 (norm.pdf_integrable 0 x)
               (norm.pdf_integrable x 0)).
    rewrite Ropp_involutive in H |- *.
    symmetry. revert H. generalize (norm.pdf_integrable (- - x) 0).
    rewrite Ropp_involutive. intros r H.
    rewrite <- H. apply RiemannInt_P5.
Qed.

(** The two tails of the distribution add up to one. *)
Lemma cdf_opp (x : R) : norm.cdf (- x) = 1 - norm.cdf x.
Proof. unfold norm.cdf. rewrite integral_odd. lra. Qed.

Lemma cdf_0 : norm.cdf 0 = 1 / 2.
Proof. unfold norm.cdf. rewrite RiemannInt_P9. lra. Qed.

(** The density is the derivative of the distribution function: around any
    point the latter is a primitive of the density shifted by a constant. *)
Lemma cdf_derivative (x : R) : derivable_pt_lim norm.cdf x (norm.pdf x).
Proof.
  set (m := Rabs x + 1).
  assert (Hm : - m < x < m).
  { unfold m, Rabs. destruct (Rcase_abs x); lra. }
  assert (bounds : - m <= m) by lra.
  assert (cont : forall z : R, - m <= z <= m -> continuity_pt norm.pdf z).
  { intros z _. apply norm.pdf_continuity. }
  pose (P := primitive bounds (FTC_P1 bounds cont)).
  pose (c := 1 / 2 - RiemannInt (norm.pdf_integrable (- m) 0)).
  assert (Hf : derivable_pt_lim (P + fct_cte c)%F x (norm.pdf x + 0)).
  { apply derivable_pt_lim_plus.
    - apply RiemannInt_P27. exact Hm.
    - apply derivable_pt_lim_const. }
  rewrite Rplus_0_r in Hf.
  apply (derivable_pt_lim_locally_ext (P + fct_cte c)%F norm.cdf x (- m) m);
    [exact Hm | | exact Hf].
  intros z Hz. unfold plus_fct, fct_cte, P, primitive, c, norm.cdf.
  destruct (Rle_dec (- m) z) as [Hl | Hl]; [| lra].
  destruct (Rle_dec z m) as [Hu | Hu]; [| lra].
  rewrite (RiemannInt_P5 _ (norm.pdf_integrable (- m) z)).
  rewrite <- (RiemannInt_P26 (norm.pdf_integrable (- m) 0)
                (norm.pdf_integrable 0 z) (norm.pdf_integrable (- m) z)).
  lra.
Qed.

(** ** Basic facts about construction *)

Ltac decide_order :=
  repeat match goal with
    | |- context [Rle_dec ?a ?b] => destruct (Rle_dec a b)
    | |- context [Rlt_dec ?a ?b] => destruct (Rlt_dec a b)
    | H : context [Rle_dec ?a ?b] |- _ => destruct (Rle_dec a b)
    | H : context [Rlt_dec ?a ?b] |- _ => destruct (Rlt_dec a b)
    end.

(** Runs [__init__] on given numbers: every comparison is settled by linear
    arithmetic. *)
Ltac run_validation :=
  unfold __init__, _validate_inputs; decide_order; try reflexivity; lra.

Lemma validate_ok (T K S sigma r : R) :
  valid_inputs T K S sigma r -> _validate_inputs T K S sigma r = Ok tt.
Proof.
  unfold valid_inputs, _validate_inputs. intros (HT & HK & HS & Hs & Hr).
  decide_order; try reflexivity; lra.
Qed.

Lemma validate_raise (T K S sigma r : R) (e : exn) :
  _validate_inputs T K S sigma r = Raise e ->
  T <= 0 \/ K <= 0 \/ S <= 0 \/ sigma <= 0 \/ r < 0.
Proof.
  unfold _validate_inputs. intros H.
  decide_order; try discriminate; tauto.
Qed.

Lemma init_valid (T K S sigma r : R) :
  valid_inputs T K S sigma r ->
  __init__ T K S sigma r = Ok (built T K S sigma r).
Proof.
  intros Hv. unfold __init__. rewrite (validate_ok _ _ _ _ _ Hv).
  reflexivity.
Qed.

Lemma init_raise (T K S sigma r : R) (e : exn) :
  __init__ T K S sigma r = Raise e <->
  _validate_inputs T K S sigma r = Raise e.
Proof.
  unfold __init__.
  destruct (_validate_inputs T K S sigma r) as [[] | e']; simpl.
  - split; discriminate.
  - split; intros H; inversion H; reflexivity.
Qed.

Lemma init_inv (T K S sigma r : R) (self : BlackScholes) :
  __init__ T K S sigma r = Ok self ->
  valid_inputs T K S sigma r /\ self = built T K S sigma r.
Proof.
  intros H.
  assert (Hv : valid_inputs T K S sigma r).
  { unfold __init__ in H.
    destruct (_validate_inputs T K S sigma r) as [u | e] eqn:E;
      [| discriminate].
    unfold _validate_inputs in E. unfold valid_inputs.
    decide_order; try discriminate; repeat split; lra. }
  split; [exact Hv |].
  rewrite (init_valid _ _ _ _ _ Hv) in H. now inversion H.
Qed.

Example atm_engine_constructed :
  __init__ 1 100 100 0.2 0.05 = Ok atm_engine.
Proof. run_validation. Qed.

(** No method assigns to the instance. *)
Lemma calculate_prices_pure (self : BlackScholes) :
  instance_after (calculate_prices self) = self.
Proof. reflexivity. Qed.

Lemma calculate_greeks_pure (self : BlackScholes) :
  instance_after (calculate_greeks self) = self.
Proof. reflexivity. Qed.

Lemma calculate_pnl_pure (spot_range : list R) (purchase_price : R)
  (self : BlackScholes) :
  instance_after (calculate_pnl spot_range purchase_price self) = self.
Proof.
  unfold calculate_pnl.
  destruct (Rlt_dec purchase_price 0); [reflexivity |].
  destruct (Nat.eqb (np.size (np.asarray spot_range)) 0); reflexivity.
Qed.

Lemma after_query_pure (self : BlackScholes) (q : query) :
  after_query self q = self.
Proof.
  destruct q; simpl;
    auto using calculate_prices_pure, calculate_greeks_pure,
      calculate_pnl_pure.
Qed.

Lemma after_queries_pure (qs : list query) (self : BlackScholes) :
  after_queries self qs = self.
Proof.
  unfold after_queries. induction qs as [| q qs IH]; simpl.
  - reflexivity.
  - now rewrite after_query_pure.
Qed.

(** ** The constructor on built-in floats *)

Lemma overflow_threshold_above_1 : 1 < overflow_threshold.
Proof.
  unfold overflow_threshold.
  replace (2 ^ 1024) with (2 ^ 54 * 2 ^ 970)
    by (rewrite <- pow_add; reflexivity).
  assert (H970 : 1 <= 2 ^ 970) by (apply pow_R1_Rle; lra).
  assert (H54 : 2 ^ 54 = 18014398509481984) by (simpl; ring).
  rewrite H54. nra.
Qed.

Lemma overflow_threshold_below_1e400 : overflow_threshold <= (10 ^ 200) ^ 2.
Proof.
  unfold overflow_threshold.
  assert (H970 : 0 < 2 ^ 970) by (apply pow_lt; lra).
  assert (Hle : 2 ^ 1024 <= 10 ^ 400).
  { rewrite !pow_IZR. apply IZR_le, Z.leb_le. vm_compute. reflexivity. }
  rewrite <- pow_mult. change (200 * 2)%nat with 400%nat. lra.
Qed.

Lemma init_for_raise (ty : number_type) (T K S sigma r : R) (e : exn) :
  __init__for ty T K S sigma r = Raises (Engine e) <->
  _validate_inputs T K S sigma r = Raise e.
Proof.
  unfold __init__for, _calculate_d1_d2_for, float_pow2.
  destruct (_validate_inputs T K S sigma r) as [[] | e']; cbn [volatility].
  - split; [| discriminate].
    destruct ty; [destruct (Rle_dec overflow_threshold (sigma ^ 2)) |];
      discriminate.
  - split; intros H; inversion H; reflexivity.
Qed.

Lemma init_for_valid (ty : number_type) (T K S sigma r : R) :
  valid_inputs T K S sigma r ->
  ty = numpy_float64 \/ sigma ^ 2 < overflow_threshold ->
  __init__for ty T K S sigma r = Returns (built T K S sigma r).
Proof.
  intros Hv Hrange. unfold __init__for, _calculate_d1_d2_for, float_pow2.
  rewrite (validate_ok _ _ _ _ _ Hv). cbn [volatility].
  destruct ty.
  - destruct (Rle_dec overflow_threshold (sigma ^ 2)) as [Hov | _];
      [| reflexivity].
    destruct Hrange as [E | Hlt]; [discriminate | lra].
  - reflexivity.
Qed.

Lemma init_for_overflow (T K S sigma r : R) :
  valid_inputs T K S sigma r ->
  overflow_threshold <= sigma ^ 2 ->
  __init__for builtin_float T K S sigma r = Raises OverflowError.
Proof.
  intros Hv Hov. unfold __init__for, _calculate_d1_d2_for, float_pow2.
  rewrite (validate_ok _ _ _ _ _ Hv). cbn [volatility].
  destruct (Rle_dec overflow_threshold (sigma ^ 2)); [reflexivity | lra].
Qed.

Lemma init_for_inv (ty : number_type) (T K S sigma r : R)
  (self : BlackScholes) :
  __init__for ty T K S sigma r = Returns self ->
  valid_inputs T K S sigma r /\ self = built T K S sigma r.
Proof.
  intros H.
  assert (Hv : valid_inputs T K S sigma r).
  { unfold __init__for in H.
    destruct (_validate_inputs T K S sigma r) as [u | e] eqn:E;
      [| discriminate].
    unfold _validate_inputs in E. unfold valid_inputs.
    decide_order; try discriminate; repeat split; lra. }
  split; [exact Hv |].
  unfold __init__for, _calculate_d1_d2_for, float_pow2 in H.
  rewrite (validate_ok _ _ _ _ _ Hv) in H. cbn [volatility] in H.
  destruct ty;
    [destruct (Rle_dec overflow_threshold (sigma ^ 2)); [discriminate |] |];
    now inversion H.
Qed.

(** Whatever the constructor returns on floats of either type, the
    constructor in exact arithmetic returns too. *)
Lemma init_for_exact (ty : number_type) (T K S sigma r : R)
  (self : BlackScholes) :
  __init__for ty T K S sigma r = Returns self ->
  __init__ T K S sigma r = Ok self.
Proof.
  intros H. destruct (init_for_inv _ _ _ _ _ _ _ H) as [Hv ->].
  now apply init_valid.
Qed.

(** Runs [__init__for] on given numbers. *)
Ltac run_construction :=
  unfold __init__for, _validate_inputs, _calculate_d1_d2_for, float_pow2;
  cbn [volatility];
  generalize overflow_threshold_above_1; intro;
  decide_order; try reflexivity; lra.

Lemma calculate_prices_from (self : BlackScholes) :
  outcome (calculate_prices self)
  = Ok (prices_from self (_d1 self) (_d2 self)).
Proof. reflexivity. Qed.

Lemma calculate_greeks_from (self : BlackScholes) :
  outcome (calculate_greeks self)
  = Ok (greeks_from self (_d1 self) (_d2 self)).
Proof.
  unfold calculate_greeks, greeks_from, bind, this, ret, outcome, norm.pdf.
  cbn [fst]. do 2 f_equal; f_equal; unfold Rdiv; ring.
Qed.

(** ** Prices *)

(** C1: on an engine built by [__init__], [calculate_prices] takes no
    argument, returns normally, leaves the instance as it was, and its pair
    is [S * Phi(d1) - K * exp(-r*T) * Phi(d2)] for the call and
    [K * exp(-r*T) * Phi(-d2) - S * Phi(-d1)] for the put, with [d1], [d2]
    the terms stored in the engine. *)
Theorem calculate_prices_formula (T K S sigma r : R) (self : BlackScholes) :
  __init__ T K S sigma r = Ok self ->
  calculate_prices self =
    (Ok (S * norm.cdf (_d1 self)
         - K * exp (- r * T) * norm.cdf (_d2 self),
         K * exp (- r * T) * norm.cdf (- _d2 self)
         - S * norm.cdf (- _d1 self)),
     self).
Proof.
  intros H. destruct (init_inv _ _ _ _ _ _ H) as [_ ->]. reflexivity.
Qed.

Lemma calculate_prices_formula_witness :
  calculate_prices atm_engine =
    (Ok (100 * norm.cdf (_d1 atm_engine)
         - 100 * exp (- (0.05) * 1) * norm.cdf (_d2 atm_engine),
         100 * exp (- (0.05) * 1) * norm.cdf (- _d2 atm_engine)
         - 100 * norm.cdf (- _d1 atm_engine)),
     atm_engine).
Proof.
  apply (calculate_prices_formula 1 100 100 0.2 0.05 atm_engine).
  run_validation.
Defined.

(** C2: when construction succeeds, on floats of either type, the four
    inputs are positive and the rate is not negative, and the engine holds
    [d1 = (ln(S/K) + (r + 0.5*sigma^2)*T) / (sigma*sqrt T)] and
    [d2 = d1 - sigma*sqrt T].  Whatever queries are made afterwards, the
    instance is unchanged, and the prices and the Greeks it returns are the
    specification's formulas at these two values.  The queries read the
    stored terms and do not recompute them: on an instance that stores other
    values [x] and [y], they return the same formulas at [x] and [y]. *)
Theorem d1_d2_fixed_at_construction (ty : number_type) (T K S sigma r : R)
  (self : BlackScholes) :
  __init__for ty T K S sigma r = Returns self ->
  let inputs := mkAttrs T K S sigma r in
  let d1 :=
    (ln (S / K) + (r + 0.5 * sigma ^ 2) * T) / (sigma * sqrt T) in
  let d2 := d1 - sigma * sqrt T in
  (0 < T /\ 0 < K /\ 0 < S /\ 0 < sigma /\ 0 <= r)
  /\ attrs self = inputs
  /\ _d1 self = d1
  /\ _d2 self = d2
  /\ (forall qs : list query,
        after_queries self qs = self
        /\ outcome (calculate_prices (after_queries self qs))
           = Ok (prices_from inputs d1 d2)
        /\ outcome (calculate_greeks (after_queries self qs))
           = Ok (greeks_from inputs d1 d2))
  /\ (forall x y : R,
        outcome (calculate_prices (mkBlackScholes inputs x y))
        = Ok (prices_from inputs x y)
        /\ outcome (calculate_greeks (mkBlackScholes inputs x y))
           = Ok (greeks_from inputs x y)).
Proof.
  intros H inputs d1 d2.
  destruct (init_for_inv _ _ _ _ _ _ _ H) as [Hv ->].
  split; [exact Hv |].
  split; [reflexivity |]. split; [reflexivity |]. split; [reflexivity |].
  split.
  - intros qs. rewrite after_queries_pure.
    split; [reflexivity |].
    rewrite calculate_prices_from, calculate_greeks_from.
    split; reflexivity.
  - intros x y.
    rewrite calculate_prices_from, calculate_greeks_from.
    split; reflexivity.
Qed.

Lemma d1_d2_fixed_at_construction_witness :
  _d1 atm_engine
  = (ln (100 / 100) + (0.05 + 0.5 * 0.2 ^ 2) * 1) / (0.2 * sqrt 1)
  /\ _d2 atm_engine
     = (ln (100 / 100) + (0.05 + 0.5 * 0.2 ^ 2) * 1) / (0.2 * sqrt 1)
       - 0.2 * sqrt 1
  /\ outcome
       (calculate_greeks
          (after_queries atm_engine [Prices; Pnl [] (-1); Greeks]))
     = Ok (greeks_from atm_attrs (_d1 atm_engine) (_d2 atm_engine)).
Proof.
  destruct (d1_d2_fixed_at_construction builtin_float 1 100 100 0.2 0.05
              atm_engine)
    as (_ & _ & H1 & H2 & Hqs & _).
  - run_construction.
  - split; [exact H1 |]. split; [exact H2 |].
    apply (Hqs [Prices; Pnl [] (-1); Greeks]).
Defined.

(** C3: put-call parity.  On an engine built by [__init__], the pair
    returned by [calculate_prices] satisfies
    [call - put = S - K * exp(-r*T)], exactly, over the reals. *)
Theorem put_call_parity (T K S sigma r : R) (self : BlackScholes) :
  __init__ T K S sigma r = Ok self ->
  exists call_price put_price : R,
    outcome (calculate_prices self) = Ok (call_price, put_price)
    /\ call_price - put_price = S - K * exp (- r * T).
Proof.
  intros H. destruct (init_inv _ _ _ _ _ _ H) as [_ ->].
  eexists _, _. split; [reflexivity |].
  simpl. rewrite !cdf_opp. ring.
Qed.

Lemma put_call_parity_witness :
  exists call_price put_price : R,
    outcome (calculate_prices atm_engine) = Ok (call_price, put_price)
    /\ call_price - put_price = 100 - 100 * exp (- (0.05) * 1).
Proof.
  apply (put_call_parity 1 100 100 0.2 0.05 atm_engine).
  run_validation.
Defined.

(** ** Validation at construction *)

(** C4 as stated fails on built-in floats: with the five rules satisfied
    and a volatility of [10^200], the constructor raises [OverflowError]. *)
Lemma construction_validation_counterexample :
  (0 < 1 /\ 0 < 100 /\ 0 < 100 /\ 0 < 10 ^ 200 /\ 0 <= 0.05)
  /\ __init__for builtin_float 1 100 100 (10 ^ 200) 0.05
     = Raises OverflowError.
Proof.
  assert (Hvol : 0 < 10 ^ 200) by (apply pow_lt; lra).
  split; [repeat split; lra |].
  apply init_for_overflow.
  - unfold valid_inputs. repeat split; lra.
  - apply overflow_threshold_below_1e400.
Qed.

(** C4, amended: the constructor raises one of the engine's errors exactly
    when one of the five rules is broken; the rules are tried in the order
    maturity, strike, spot, volatility, rate, and the first broken one
    decides the error; the five errors are pairwise different.  Inputs that
    break no rule pass validation: construction then succeeds when the
    volatility is a numpy float64 or its square is within the float range,
    and raises [OverflowError] when it is a built-in float whose square is
    not. *)
Theorem construction_validation (ty : number_type) (T K S sigma r : R) :
  ((exists e : exn, __init__for ty T K S sigma r = Raises (Engine e)) <->
   T <= 0 \/ K <= 0 \/ S <= 0 \/ sigma <= 0 \/ r < 0)
  /\ (T <= 0 -> __init__for ty T K S sigma r = Raises (Engine maturity_error))
  /\ (0 < T -> K <= 0 ->
      __init__for ty T K S sigma r = Raises (Engine strike_error))
  /\ (0 < T -> 0 < K -> S <= 0 ->
      __init__for ty T K S sigma r = Raises (Engine spot_error))
  /\ (0 < T -> 0 < K -> 0 < S -> sigma <= 0 ->
      __init__for ty T K S sigma r = Raises (Engine volatility_error))
  /\ (0 < T -> 0 < K -> 0 < S -> 0 < sigma -> r < 0 ->
      __init__for ty T K S sigma r = Raises (Engine rate_error))
  /\ NoDup [maturity_error; strike_error; spot_error; volatility_error;
            rate_error]
  /\ (0 < T -> 0 < K -> 0 < S -> 0 < sigma -> 0 <= r ->
      (ty = numpy_float64 \/ sigma ^ 2 < overflow_threshold ->
       exists self : BlackScholes,
         __init__for ty T K S sigma r = Returns self)
      /\ (ty = builtin_float -> overflow_threshold <= sigma ^ 2 ->
          __init__for ty T K S sigma r = Raises OverflowError)).
Proof.
  assert (Hrules :
    (T <= 0 -> __init__for ty T K S sigma r = Raises (Engine maturity_error))
    /\ (0 < T -> K <= 0 ->
        __init__for ty T K S sigma r = Raises (Engine strike_error))
    /\ (0 < T -> 0 < K -> S <= 0 ->
        __init__for ty T K S sigma r = Raises (Engine spot_error))
    /\ (0 < T -> 0 < K -> 0 < S -> sigma <= 0 ->
        __init__for ty T K S sigma r = Raises (Engine volatility_error))
    /\ (0 < T -> 0 < K -> 0 < S -> 0 < sigma -> r < 0 ->
        __init__for ty T K S sigma r = Raises (Engine rate_error))).
  { repeat split; intros; apply init_for_raise; unfold _validate_inputs;
      decide_order; try reflexivity; lra. }
  split; [| split; [| split; [| split; [| split; [| split; [| split]]]]]];
    try tauto.
  - split.
    + intros [e He]. apply init_for_raise in He.
      exact (validate_raise _ _ _ _ _ _ He).
    + destruct Hrules as (H1 & H2 & H3 & H4 & H5). intros Hbroken.
      destruct (Rle_lt_dec T 0); [eauto |].
      destruct (Rle_lt_dec K 0); [eauto |].
      destruct (Rle_lt_dec S 0); [eauto |].
      destruct (Rle_lt_dec sigma 0); [eauto |].
      destruct (Rlt_le_dec r 0); [eauto |]. lra.
  - repeat constructor; simpl; intuition discriminate.
  - intros HT HK HS Hs Hr.
    assert (Hv : valid_inputs T K S sigma r) by (unfold valid_inputs; tauto).
    split.
    + intros Hrange. exists (built T K S sigma r).
      now apply init_for_valid.
    + intros -> Hov. now apply init_for_overflow.
Qed.

(** The rejections listed with the validation rules. *)
Example reject_zero_maturity :
  __init__ 0 100 100 0.2 0.05 = Raise maturity_error.
Proof. run_validation. Qed.

Example reject_negative_strike :
  __init__ 1 (-5) 100 0.2 0.05 = Raise strike_error.
Proof. run_validation. Qed.

Example reject_zero_spot :
  __init__ 1 100 0 0.2 0.05 = Raise spot_error.
Proof. run_validation. Qed.

Example reject_zero_volatility :
  __init__ 1 100 100 0 0.05 = Raise volatility_error.
Proof. run_validation. Qed.

Example reject_negative_rate :
  __init__ 1 100 100 0.2 (-0.01) = Raise rate_error.
Proof. run_validation. Qed.

Example accept_zero_rate :
  __init__ 1 100 100 0.2 0 = Ok (built 1 100 100 0.2 0).
Proof. apply init_valid. unfold valid_inputs. lra. Qed.

(** ** Greeks *)

(** C5: on an engine built by [__init__], [calculate_greeks] returns
    normally, leaves the instance as it was, and its two records hold the
    stated formulas, with [discount = exp(-r*T)], [sqrtT = sqrt T] and
    [pdf1] the standard normal density at the stored [d1]. *)
Theorem calculate_greeks_formula (T K S sigma r : R) (self : BlackScholes) :
  __init__ T K S sigma r = Ok self ->
  let d1 := _d1 self in
  let d2 := _d2 self in
  let discount := exp (- r * T) in
  let sqrtT := sqrt T in
  let pdf1 := norm.pdf d1 in
  let callDelta := norm.cdf d1 in
  let gamma := pdf1 / (S * sigma * sqrtT) in
  let callTheta :=
    - (S * pdf1 * sigma) / (2 * sqrtT) - r * K * discount * norm.cdf d2 in
  let vega := S * sqrtT * pdf1 in
  let callRho := K * T * discount * norm.cdf d2 in
  let putDelta := callDelta - 1 in
  let putTheta :=
    - (S * pdf1 * sigma) / (2 * sqrtT)
    + r * K * discount * norm.cdf (- d2) in
  let putRho := - K * T * discount * norm.cdf (- d2) in
  calculate_greeks self =
    (Ok (mkOptionGreeks callDelta gamma callTheta vega callRho,
         mkOptionGreeks putDelta gamma putTheta vega putRho),
     self).
Proof.
  intros H. destruct (init_inv _ _ _ _ _ _ H) as [_ ->].
  cbv zeta. unfold calculate_greeks, bind, this, ret, norm.pdf. cbn.
  do 3 f_equal; f_equal; unfold Rdiv; ring.
Qed.

Lemma calculate_greeks_formula_witness :
  outcome (calculate_greeks atm_engine) =
    Ok (mkOptionGreeks
          (norm.cdf (_d1 atm_engine))
          (norm.pdf (_d1 atm_engine) / (100 * 0.2 * sqrt 1))
          (- (100 * norm.pdf (_d1 atm_engine) * 0.2) / (2 * sqrt 1)
           - 0.05 * 100 * exp (- (0.05) * 1) * norm.cdf (_d2 atm_engine))
          (100 * sqrt 1 * norm.pdf (_d1 atm_engine))
          (100 * 1 * exp (- (0.05) * 1) * norm.cdf (_d2 atm_engine)),
        mkOptionGreeks
          (norm.cdf (_d1 atm_engine) - 1)
          (norm.pdf (_d1 atm_engine) / (100 * 0.2 * sqrt 1))
          (- (100 * norm.pdf (_d1 atm_engine) * 0.2) / (2 * sqrt 1)
           + 0.05 * 100 * exp (- (0.05) * 1) * norm.cdf (- _d2 atm_engine))
          (100 * sqrt 1 * norm.pdf (_d1 atm_engine))
          (- (100) * 1 * exp (- (0.05) * 1) * norm.cdf (- _d2 atm_engine))).
Proof.
  rewrite (calculate_greeks_formula 1 100 100 0.2 0.05 atm_engine).
  - reflexivity.
  - run_validation.
Defined.

(** C6: Greek symmetry.  The two records of one [calculate_greeks] call
    carry the same gamma and the same vega, and the call delta exceeds the
    put delta by exactly one. *)
Theorem greek_symmetry (T K S sigma r : R) (self : BlackScholes) :
  __init__ T K S sigma r = Ok self ->
  exists call_greeks put_greeks : OptionGreeks,
    outcome (calculate_greeks self) = Ok (call_greeks, put_greeks)
    /\ gamma call_greeks = gamma put_greeks
    /\ vega call_greeks = vega put_greeks
    /\ delta call_greeks - delta put_greeks = 1.
Proof.
  intros _. eexists _, _. split; [reflexivity |].
  cbn. repeat split. ring.
Qed.

Lemma greek_symmetry_witness :
  exists call_greeks put_greeks : OptionGreeks,
    outcome (calculate_greeks atm_engine) = Ok (call_greeks, put_greeks)
    /\ gamma call_greeks = gamma put_greeks
    /\ vega call_greeks = vega put_greeks
    /\ delta call_greeks - delta put_greeks = 1.
Proof.
  apply (greek_symmetry 1 100 100 0.2 0.05 atm_engine).
  run_validation.
Defined.

(** ** Profit and loss *)

(** What [calculate_pnl] returns once both checks have passed. *)
Lemma calculate_pnl_ok (self : BlackScholes) (spot_range : list R)
  (purchase_price : R) :
  0 <= purchase_price -> spot_range <> [] ->
  calculate_pnl spot_range purchase_price self =
    (Ok (map (fun s => Rmax 0 (s - strike_price self) - purchase_price)
           spot_range,
         map (fun s => Rmax 0 (strike_price self - s) - purchase_price)
           spot_range),
     self).
Proof.
  intros Hp Hne. unfold calculate_pnl.
  destruct (Rlt_dec purchase_price 0); [lra |].
  destruct spot_range as [| s0 rest]; [contradiction |].
  unfold np.asarray, np.size, np.sub_scalar, np.maximum, np.scalar_sub,
    bind, this, ret.
  cbn [List.length Nat.eqb]. now rewrite !map_map.
Qed.

Lemma calculate_pnl_negative (self : BlackScholes) (spot_range : list R)
  (purchase_price : R) :
  purchase_price < 0 ->
  calculate_pnl spot_range purchase_price self =
    (Raise purchase_price_error, self).
Proof.
  intros Hp. unfold calculate_pnl.
  destruct (Rlt_dec purchase_price 0); [reflexivity | lra].
Qed.

Lemma calculate_pnl_empty (self : BlackScholes) (purchase_price : R) :
  0 <= purchase_price ->
  calculate_pnl [] purchase_price self = (Raise spot_range_error, self).
Proof.
  intros Hp. unfold calculate_pnl.
  destruct (Rlt_dec purchase_price 0); [lra | reflexivity].
Qed.

Lemma StronglySorted_map (P Q : R -> R -> Prop) (f : R -> R) (l : list R) :
  (forall a b : R, P a b -> Q (f a) (f b)) ->
  StronglySorted P l -> StronglySorted Q (map f l).
Proof.
  intros Hf. induction 1 as [| a l Hl IH Ha]; simpl; constructor.
  - exact IH.
  - rewrite Forall_map. revert Ha. apply Forall_impl. intros b. apply Hf.
Qed.

Lemma Rle_transitive : Relations_1.Transitive Rle.
Proof. intros x y z. apply Rle_trans. Qed.

Lemma call_payoff_mono (K p a b : R) :
  a <= b -> Rmax 0 (a - K) - p <= Rmax 0 (b - K) - p.
Proof.
  intros Hab. unfold Rmax.
  destruct (Rle_dec 0 (a - K)), (Rle_dec 0 (b - K)); lra.
Qed.

Lemma put_payoff_anti (K p a b : R) :
  a <= b -> Rmax 0 (K - a) - p >= Rmax 0 (K - b) - p.
Proof.
  intros Hab. unfold Rmax.
  destruct (Rle_dec 0 (K - a)), (Rle_dec 0 (K - b)); lra.
Qed.

(** C7: on an engine built by [__init__], for a non-empty spot range and a
    non-negative purchase price, [calculate_pnl] returns two sequences as
    long as the range, holding at every index
    [max(0, spot - K) - purchasePrice] and [max(0, K - spot) - purchasePrice];
    any instance with the same strike returns the same two sequences. *)
Theorem calculate_pnl_formula (T K S sigma r : R) (self : BlackScholes)
  (spot_range : list R) (purchase_price : R) :
  __init__ T K S sigma r = Ok self ->
  spot_range <> [] ->
  0 <= purchase_price ->
  exists callPnl putPnl : list R,
    outcome (calculate_pnl spot_range purchase_price self) =
      Ok (callPnl, putPnl)
    /\ List.length callPnl = List.length spot_range
    /\ List.length putPnl = List.length spot_range
    /\ (forall (i : nat) (spot : R),
          nth_error spot_range i = Some spot ->
          nth_error callPnl i = Some (Rmax 0 (spot - K) - purchase_price)
          /\ nth_error putPnl i = Some (Rmax 0 (K - spot) - purchase_price))
    /\ (forall other : BlackScholes,
          strike_price other = K ->
          outcome (calculate_pnl spot_range purchase_price other) =
            Ok (callPnl, putPnl)).
Proof.
  intros H Hne Hp. destruct (init_inv _ _ _ _ _ _ H) as [_ ->].
  eexists _, _. rewrite calculate_pnl_ok by assumption.
  split; [reflexivity |]. cbn [built attrs strike_price].
  rewrite !length_map.
  split; [reflexivity |]. split; [reflexivity |]. split.
  - intros i spot Hi. rewrite !nth_error_map, Hi. split; reflexivity.
  - intros other HK. rewrite calculate_pnl_ok by assumption.
    now rewrite HK.
Qed.

Lemma calculate_pnl_formula_witness :
  exists callPnl putPnl : list R,
    outcome (calculate_pnl [90; 100; 110] 5 atm_engine) =
      Ok (callPnl, putPnl)
    /\ List.length callPnl = 3%nat
    /\ List.length putPnl = 3%nat
    /\ nth_error callPnl 2 = Some (Rmax 0 (110 - 100) - 5)
    /\ nth_error putPnl 0 = Some (Rmax 0 (100 - 90) - 5).
Proof.
  destruct (calculate_pnl_formula 1 100 100 0.2 0.05 atm_engine
              [90; 100; 110] 5)
    as (callPnl & putPnl & Hout & Hlc & Hlp & Hnth & _).
  - run_validation.
  - discriminate.
  - lra.
  - exists callPnl, putPnl.
    split; [exact Hout |]. split; [exact Hlc |]. split; [exact Hlp |].
    split.
    + apply (Hnth 2%nat 110). reflexivity.
    + apply (Hnth 0%nat 90). reflexivity.
Defined.

(** C8: [calculate_pnl] raises exactly when the purchase price is negative
    or the spot range is empty, with a different error for each; it returns
    normally otherwise; and a call that raises leaves the instance as it
    was. *)
Theorem calculate_pnl_rejection (self : BlackScholes) (spot_range : list R)
  (purchase_price : R) :
  ((exists e : exn,
      outcome (calculate_pnl spot_range purchase_price self) = Raise e) <->
   purchase_price < 0 \/ spot_range = [])
  /\ (purchase_price < 0 ->
      outcome (calculate_pnl spot_range purchase_price self) =
        Raise purchase_price_error)
  /\ (0 <= purchase_price -> spot_range = [] ->
      outcome (calculate_pnl spot_range purchase_price self) =
        Raise spot_range_error)
  /\ purchase_price_error <> spot_range_error
  /\ (0 <= purchase_price -> spot_range <> [] ->
      exists pnl : np.ndarray * np.ndarray,
        outcome (calculate_pnl spot_range purchase_price self) = Ok pnl)
  /\ (forall e : exn,
        outcome (calculate_pnl spot_range purchase_price self) = Raise e ->
        instance_after (calculate_pnl spot_range purchase_price self) = self).
Proof.
  repeat split.
  - intros [e He].
    destruct (Rlt_le_dec purchase_price 0) as [Hp | Hp]; [now left |].
    destruct spot_range as [| s0 rest]; [now right |].
    rewrite calculate_pnl_ok in He by (assumption || discriminate).
    discriminate.
  - intros [Hp | ->].
    + eexists. now rewrite calculate_pnl_negative.
    + destruct (Rlt_le_dec purchase_price 0) as [Hp | Hp].
      * eexists. now rewrite calculate_pnl_negative.
      * eexists. now rewrite calculate_pnl_empty.
  - intros Hp. now rewrite calculate_pnl_negative.
  - intros Hp ->. now rewrite calculate_pnl_empty.
  - discriminate.
  - intros Hp Hne. eexists. now rewrite calculate_pnl_ok.
  - intros e _. apply calculate_pnl_pure.
Qed.

Example reject_negative_purchase_price :
  calculate_pnl [90; 100; 110] (-1) atm_engine =
    (Raise purchase_price_error, atm_engine).
Proof. apply calculate_pnl_negative. lra. Qed.

Example reject_empty_spot_range :
  calculate_pnl [] 5 atm_engine = (Raise spot_range_error, atm_engine).
Proof. apply calculate_pnl_empty. lra. Qed.

(** C9: PnL monotonicity.  For a spot range in non-decreasing order and a
    non-negative purchase price, whatever [calculate_pnl] returns is
    non-decreasing on the call side and non-increasing on the put side, and
    it does return when the range is not empty. *)
Theorem pnl_monotone (T K S sigma r : R) (self : BlackScholes)
  (spot_range : list R) (purchase_price : R) :
  __init__ T K S sigma r = Ok self ->
  0 <= purchase_price ->
  Sorted Rle spot_range ->
  (forall callPnl putPnl : list R,
     outcome (calculate_pnl spot_range purchase_price self) =
       Ok (callPnl, putPnl) ->
     StronglySorted Rle callPnl /\ StronglySorted Rge putPnl)
  /\ (spot_range <> [] ->
      exists callPnl putPnl : list R,
        outcome (calculate_pnl spot_range purchase_price self) =
          Ok (callPnl, putPnl)).
Proof.
  intros _ Hp Hsorted. split.
  - intros callPnl putPnl Hout.
    assert (Hne : spot_range <> []).
    { intros ->. rewrite calculate_pnl_empty in Hout by assumption.
      discriminate. }
    rewrite calculate_pnl_ok in Hout by assumption.
    inversion Hout; subst callPnl putPnl; clear Hout.
    apply (Sorted_StronglySorted Rle_transitive) in Hsorted.
    split.
    + revert Hsorted. apply StronglySorted_map.
      intros a b. apply call_payoff_mono.
    + revert Hsorted. apply StronglySorted_map.
      intros a b. apply put_payoff_anti.
  - intros Hne. eexists _, _. now rewrite calculate_pnl_ok.
Qed.

Lemma pnl_monotone_witness :
  exists callPnl putPnl : list R,
    outcome (calculate_pnl [90; 100; 110] 5 atm_engine) =
      Ok (callPnl, putPnl)
    /\ StronglySorted Rle callPnl /\ StronglySorted Rge putPnl.
Proof.
  destruct (pnl_monotone 1 100 100 0.2 0.05 atm_engine [90; 100; 110] 5)
    as [Hmono Hret].
  - run_validation.
  - lra.
  - repeat constructor; lra.
  - destruct Hret as (callPnl & putPnl & Hout); [discriminate |].
    exists callPnl, putPnl. split; [exact Hout |].
    exact (Hmono callPnl putPnl Hout).
Defined.

(** C10: the purchase price is checked before the spot range.  A negative
    purchase price raises the purchase-price error whatever the range, the
    empty one included; the empty-range error is only ever raised with a
    non-negative purchase price. *)
Theorem purchase_price_checked_first (self : BlackScholes)
  (spot_range : list R) (purchase_price : R) :
  (purchase_price < 0 ->
   outcome (calculate_pnl spot_range purchase_price self) =
     Raise purchase_price_error
   /\ outcome (calculate_pnl [] purchase_price self) =
        Raise purchase_price_error)
  /\ (outcome (calculate_pnl spot_range purchase_price self) =
        Raise spot_range_error ->
      0 <= purchase_price /\ spot_range = []).
Proof.
  split.
  - intros Hp. now rewrite !calculate_pnl_negative.
  - intros Hout.
    destruct (Rlt_le_dec purchase_price 0) as [Hp | Hp].
    { rewrite calculate_pnl_negative in Hout by assumption. discriminate. }
    split; [exact Hp |].
    destruct spot_range as [| s0 rest]; [reflexivity |].
    rewrite calculate_pnl_ok in Hout by (assumption || discriminate).
    discriminate.
Qed.

Example negative_price_with_empty_range :
  calculate_pnl [] (-1) atm_engine = (Raise purchase_price_error, atm_engine).
Proof. apply calculate_pnl_negative. lra. Qed.

(** ** Further properties of the engine *)

Lemma pdf_pos (x : R) : 0 < norm.pdf x.
Proof.
  unfold norm.pdf. apply Rdiv_lt_0_compat; [apply exp_pos |].
  apply sqrt_lt_R0. generalize PI_RGT_0. lra.
Qed.

Lemma cdf_derivable : derivable norm.cdf.
Proof. intros x. exists (norm.pdf x). apply cdf_derivative. Defined.

Lemma cdf_increasing (x y : R) : x < y -> norm.cdf x < norm.cdf y.
Proof.
  intros Hxy.
  apply (derive_increasing_interv x y norm.cdf cdf_derivable Hxy); try lra.
  intros t _. simpl. apply pdf_pos.
Qed.

Lemma cdf_above_half (x : R) : 0 < x -> 1 / 2 < norm.cdf x.
Proof. intros Hx. rewrite <- cdf_0. now apply cdf_increasing. Qed.

Lemma vol_sqrt_pos (T sigma : R) : 0 < T -> 0 < sigma -> 0 < sigma * sqrt T.
Proof.
  intros HT Hs. apply Rmult_lt_0_compat; [exact Hs |]. now apply sqrt_lt_R0.
Qed.

(** X1: in exact-real arithmetic, the two terms stored at construction
    differ by [sigma * sqrt T],
    so [d2] lies strictly below [d1]. *)
Theorem d2_below_d1 (T K S sigma r : R) (self : BlackScholes) :
  __init__ T K S sigma r = Ok self ->
  _d1 self - _d2 self = sigma * sqrt T /\ _d2 self < _d1 self.
Proof.
  intros H. destruct (init_inv _ _ _ _ _ _ H) as [Hv ->].
  destruct Hv as (HT & _ & _ & Hs & _).
  assert (Hpos := vol_sqrt_pos T sigma HT Hs).
  cbn. split; lra.
Qed.

Lemma d2_below_d1_witness :
  _d1 atm_engine - _d2 atm_engine = 0.2 * sqrt 1
  /\ _d2 atm_engine < _d1 atm_engine.
Proof.
  apply (d2_below_d1 1 100 100 0.2 0.05 atm_engine). run_validation.
Defined.

(** X2: in exact-real arithmetic, where the density never underflows,
    gamma and vega, shared by the call and the put record, are strictly
    positive on every constructed engine. *)
Theorem gamma_vega_positive (T K S sigma r : R) (self : BlackScholes) :
  __init__ T K S sigma r = Ok self ->
  exists call_greeks put_greeks : OptionGreeks,
    outcome (calculate_greeks self) = Ok (call_greeks, put_greeks)
    /\ 0 < gamma call_greeks /\ 0 < vega call_greeks
    /\ 0 < gamma put_greeks /\ 0 < vega put_greeks.
Proof.
  intros H. destruct (init_inv _ _ _ _ _ _ H) as [Hv ->].
  destruct Hv as (HT & _ & HS & Hs & _).
  eexists _, _. split; [reflexivity |]. cbn.
  assert (Hq := sqrt_lt_R0 T HT).
  assert (Hp := pdf_pos (fst (_calculate_d1_d2 (mkAttrs T K S sigma r)))).
  unfold norm.pdf in Hp. cbn in Hp.
  assert (Hg : 0 < S * sigma * sqrt T).
  { repeat apply Rmult_lt_0_compat; assumption. }
  assert (Hv : 0 < S * sqrt T).
  { apply Rmult_lt_0_compat; assumption. }
  repeat split;
    (apply Rdiv_lt_0_compat; assumption)
    || (apply Rmult_lt_0_compat; assumption).
Qed.

Lemma gamma_vega_positive_witness :
  exists call_greeks put_greeks : OptionGreeks,
    outcome (calculate_greeks atm_engine) = Ok (call_greeks, put_greeks)
    /\ 0 < gamma call_greeks /\ 0 < vega call_greeks
    /\ 0 < gamma put_greeks /\ 0 < vega put_greeks.
Proof.
  apply (gamma_vega_positive 1 100 100 0.2 0.05 atm_engine). run_validation.
Defined.

(** X3: in exact-real arithmetic, vega and gamma of a constructed engine
    are tied by
    [vega = gamma * S^2 * sigma * T]. *)
Theorem vega_gamma_identity (T K S sigma r : R) (self : BlackScholes) :
  __init__ T K S sigma r = Ok self ->
  exists call_greeks put_greeks : OptionGreeks,
    outcome (calculate_greeks self) = Ok (call_greeks, put_greeks)
    /\ vega call_greeks = gamma call_greeks * S ^ 2 * sigma * T.
Proof.
  intros H. destruct (init_inv _ _ _ _ _ _ H) as [Hv ->].
  destruct Hv as (HT & _ & HS & Hs & _).
  eexists _, _. split; [reflexivity |]. cbn -[pow].
  match goal with
  | |- context [exp ?a / sqrt (2 * PI)] =>
      generalize (exp a / sqrt (2 * PI))
  end.
  intros p.
  assert (Hq := sqrt_lt_R0 T HT).
  assert (HTs : T = sqrt T * sqrt T) by (symmetry; apply sqrt_sqrt; lra).
  set (s := sqrt T) in *. clearbody s.
  rewrite HTs. field. repeat split; lra.
Qed.

Lemma vega_gamma_identity_witness :
  exists call_greeks put_greeks : OptionGreeks,
    outcome (calculate_greeks atm_engine) = Ok (call_greeks, put_greeks)
    /\ vega call_greeks = gamma call_greeks * 100 ^ 2 * 0.2 * 1.
Proof.
  apply (vega_gamma_identity 1 100 100 0.2 0.05 atm_engine). run_validation.
Defined.



(** X5: rho parity.  In exact-real arithmetic, the call rho exceeds the put
    rho by [K * T * exp(-r*T)]. *)
Theorem rho_parity (T K S sigma r : R) (self : BlackScholes) :
  __init__ T K S sigma r = Ok self ->
  exists call_greeks put_greeks : OptionGreeks,
    outcome (calculate_greeks self) = Ok (call_greeks, put_greeks)
    /\ rho call_greeks - rho put_greeks = K * T * exp (- r * T).
Proof.
  intros H. destruct (init_inv _ _ _ _ _ _ H) as [_ ->].
  eexists _, _. split; [reflexivity |].
  cbn -[pow]. rewrite cdf_opp. ring.
Qed.

Lemma rho_parity_witness :
  exists call_greeks put_greeks : OptionGreeks,
    outcome (calculate_greeks atm_engine) = Ok (call_greeks, put_greeks)
    /\ rho call_greeks - rho put_greeks = 100 * 1 * exp (- (0.05) * 1).
Proof.
  apply (rho_parity 1 100 100 0.2 0.05 atm_engine). run_validation.
Defined.

Lemma d1_increasing_in_spot (T K S1 S2 sigma r : R) :
  0 < T -> 0 < K -> 0 < sigma -> 0 < S1 -> S1 < S2 ->
  fst (_calculate_d1_d2 (mkAttrs T K S1 sigma r))
  < fst (_calculate_d1_d2 (mkAttrs T K S2 sigma r)).
Proof.
  intros HT HK Hs HS1 HS.
  assert (Hpos := vol_sqrt_pos T sigma HT Hs).
  assert (HiK : 0 < / K) by now apply Rinv_0_lt_compat.
  cbn -[pow]. unfold Rdiv at 1 3.
  apply Rmult_lt_compat_r; [now apply Rinv_0_lt_compat |].
  apply Rplus_lt_compat_r, ln_increasing; unfold Rdiv.
  - now apply Rmult_lt_0_compat.
  - now apply Rmult_lt_compat_r.
Qed.

(** X6: in exact-real arithmetic, where the distribution function never
    saturates, with maturity, strike, volatility and rate held fixed, a higher
    spot price gives a strictly higher call delta and put delta. *)
Theorem delta_increasing_in_spot (T K S1 S2 sigma r : R)
  (low high : BlackScholes) :
  __init__ T K S1 sigma r = Ok low ->
  __init__ T K S2 sigma r = Ok high ->
  S1 < S2 ->
  exists call_low put_low call_high put_high : OptionGreeks,
    outcome (calculate_greeks low) = Ok (call_low, put_low)
    /\ outcome (calculate_greeks high) = Ok (call_high, put_high)
    /\ delta call_low < delta call_high
    /\ delta put_low < delta put_high.
Proof.
  intros H1 H2 HS.
  destruct (init_inv _ _ _ _ _ _ H1) as [Hv ->].
  destruct (init_inv _ _ _ _ _ _ H2) as [_ ->].
  destruct Hv as (HT & HK & HS1 & Hs & _).
  eexists _, _, _, _. split; [reflexivity |]. split; [reflexivity |].
  assert (Hd := d1_increasing_in_spot T K S1 S2 sigma r HT HK Hs HS1 HS).
  apply cdf_increasing in Hd.
  cbn -[pow _calculate_d1_d2]. lra.
Qed.

Lemma delta_increasing_in_spot_witness :
  exists call_low put_low call_high put_high : OptionGreeks,
    outcome (calculate_greeks atm_engine) = Ok (call_low, put_low)
    /\ outcome (calculate_greeks (built 1 100 110 0.2 0.05))
       = Ok (call_high, put_high)
    /\ delta call_low < delta call_high
    /\ delta put_low < delta put_high.
Proof.
  apply (delta_increasing_in_spot 1 100 100 110 0.2 0.05).
  - run_validation.
  - run_validation.
  - lra.
Defined.

(** X7: when the spot is at or above the strike, the call delta is above
    one half and the put delta above minus one half. *)
Theorem call_delta_above_half (T K S sigma r : R)
  (self : BlackScholes) :
  __init__ T K S sigma r = Ok self ->
  K <= S ->
  exists call_greeks put_greeks : OptionGreeks,
    outcome (calculate_greeks self) = Ok (call_greeks, put_greeks)
    /\ 1 / 2 < delta call_greeks
    /\ - (1 / 2) < delta put_greeks.
Proof.
  intros H HKS. destruct (init_inv _ _ _ _ _ _ H) as [Hv ->].
  destruct Hv as (HT & HK & HS & Hs & Hr).
  eexists _, _. split; [reflexivity |].
  assert (Hd : 0 < fst (_calculate_d1_d2 (mkAttrs T K S sigma r))).
  { cbn -[pow]. apply Rdiv_lt_0_compat; [| now apply vol_sqrt_pos].
    assert (Hln : 0 <= ln (S / K)).
    { rewrite <- ln_1. destruct HKS as [Hlt | ->].
      - left. apply ln_increasing; [lra |].
        apply Rmult_lt_reg_r with K; [exact HK |].
        unfold Rdiv. rewrite Rmult_assoc, Rinv_l by lra. lra.
      - right. f_equal. field. lra. }
    assert (0 < (r + 0.5 * sigma ^ 2) * T) by (apply Rmult_lt_0_compat; nra).
    lra. }
  apply cdf_above_half in Hd.
  cbn -[pow _calculate_d1_d2]. lra.
Qed.

Lemma call_delta_above_half_witness :
  exists call_greeks put_greeks : OptionGreeks,
    outcome (calculate_greeks atm_engine) = Ok (call_greeks, put_greeks)
    /\ 1 / 2 < delta call_greeks
    /\ - (1 / 2) < delta put_greeks.
Proof.
  apply (call_delta_above_half 1 100 100 0.2 0.05 atm_engine).
  - run_validation.
  - lra.
Defined.

(** X8: the rate may be zero, and then, in exact-real arithmetic, the call
    theta and the put theta
    coincide and are strictly negative. *)
Theorem theta_at_zero_rate (T K S sigma : R) (self : BlackScholes) :
  __init__ T K S sigma 0 = Ok self ->
  exists call_greeks put_greeks : OptionGreeks,
    outcome (calculate_greeks self) = Ok (call_greeks, put_greeks)
    /\ theta call_greeks = theta put_greeks
    /\ theta call_greeks < 0.
Proof.
  intros H. destruct (init_inv _ _ _ _ _ _ H) as [Hv ->].
  destruct Hv as (HT & _ & HS & Hs & _).
  eexists _, _. split; [reflexivity |].
  cbn -[pow].
  assert (Hp := pdf_pos (fst (_calculate_d1_d2 (mkAttrs T K S sigma 0)))).
  unfold norm.pdf in Hp. cbn -[pow] in Hp.
  revert Hp.
  match goal with
  | |- context [exp ?a / sqrt (2 * PI)] =>
      generalize (exp a / sqrt (2 * PI))
  end.
  intros p Hp.
  assert (Hq := sqrt_lt_R0 T HT).
  assert (Hpos : 0 < S * p * sigma / (2 * sqrt T)).
  { apply Rdiv_lt_0_compat; [| lra].
    repeat apply Rmult_lt_0_compat; assumption. }
  split; [ring | lra].
Qed.

Lemma theta_at_zero_rate_witness :
  exists call_greeks put_greeks : OptionGreeks,
    outcome (calculate_greeks (built 1 100 100 0.2 0))
    = Ok (call_greeks, put_greeks)
    /\ theta call_greeks = theta put_greeks
    /\ theta call_greeks < 0.
Proof.
  apply (theta_at_zero_rate 1 100 100 0.2). run_validation.
Defined.

(** X9: in exact-real arithmetic, prices are homogeneous in spot and
    strike.  Multiplying both by a
    positive factor keeps [d1] and [d2] and multiplies the call and the put
    price by that factor. *)
Theorem prices_scale_with_spot_and_strike (T K S sigma r lam : R)
  (self : BlackScholes) :
  __init__ T K S sigma r = Ok self ->
  0 < lam ->
  exists (scaled : BlackScholes) (call_price put_price : R),
    __init__ T (lam * K) (lam * S) sigma r = Ok scaled
    /\ _d1 scaled = _d1 self
    /\ _d2 scaled = _d2 self
    /\ outcome (calculate_prices self) = Ok (call_price, put_price)
    /\ outcome (calculate_prices scaled)
       = Ok (lam * call_price, lam * put_price).
Proof.
  intros H Hlam. destruct (init_inv _ _ _ _ _ _ H) as [Hv ->].
  destruct Hv as (HT & HK & HS & Hs & Hr).
  exists (built T (lam * K) (lam * S) sigma r). eexists _, _.
  split.
  { apply init_valid. unfold valid_inputs.
    repeat split; try assumption; now apply Rmult_lt_0_compat. }
  assert (Hratio : lam * S / (lam * K) = S / K) by (field; lra).
  assert (Hd1 : _d1 (built T (lam * K) (lam * S) sigma r)
                = _d1 (built T K S sigma r)).
  { cbn -[pow]. now rewrite Hratio. }
  assert (Hd2 : _d2 (built T (lam * K) (lam * S) sigma r)
                = _d2 (built T K S sigma r)).
  { cbn -[pow]. now rewrite Hratio. }
  split; [exact Hd1 |]. split; [exact Hd2 |]. split; [reflexivity |].
  unfold calculate_prices, bind, this, ret, outcome. cbn [fst].
  rewrite Hd1, Hd2. cbn -[pow _calculate_d1_d2]. f_equal. f_equal; ring.
Qed.

Lemma prices_scale_with_spot_and_strike_witness :
  exists (scaled : BlackScholes) (call_price put_price : R),
    __init__ 1 (2 * 100) (2 * 100) 0.2 0.05 = Ok scaled
    /\ _d1 scaled = _d1 atm_engine
    /\ _d2 scaled = _d2 atm_engine
    /\ outcome (calculate_prices atm_engine) = Ok (call_price, put_price)
    /\ outcome (calculate_prices scaled)
       = Ok (2 * call_price, 2 * put_price).
Proof.
  apply (prices_scale_with_spot_and_strike 1 100 100 0.2 0.05 2 atm_engine).
  - run_validation.
  - lra.
Defined.

(** ** Further properties of the profit and loss curves *)

(** X10: in exact-real arithmetic, at every spot of the range the call PnL
    exceeds the put PnL by
    [spot - K]; the purchase price cancels. *)
Theorem pnl_parity (self : BlackScholes) (spot_range : list R)
  (purchase_price : R) :
  0 <= purchase_price ->
  spot_range <> [] ->
  exists callPnl putPnl : list R,
    outcome (calculate_pnl spot_range purchase_price self) =
      Ok (callPnl, putPnl)
    /\ forall (i : nat) (spot : R),
         nth_error spot_range i = Some spot ->
         exists c q : R,
           nth_error callPnl i = Some c
           /\ nth_error putPnl i = Some q
           /\ c - q = spot - strike_price self.
Proof.
  intros Hp Hne. eexists _, _. rewrite calculate_pnl_ok by assumption.
  split; [reflexivity |].
  intros i spot Hi. eexists _, _. rewrite !nth_error_map, Hi.
  split; [reflexivity |]. split; [reflexivity |].
  unfold Rmax.
  destruct (Rle_dec 0 (spot - strike_price self)),
    (Rle_dec 0 (strike_price self - spot)); lra.
Qed.

Lemma pnl_parity_witness :
  exists callPnl putPnl : list R,
    outcome (calculate_pnl [90; 100; 110] 5 atm_engine) =
      Ok (callPnl, putPnl)
    /\ exists c q : R,
         nth_error callPnl 2 = Some c
         /\ nth_error putPnl 2 = Some q
         /\ c - q = 110 - 100.
Proof.
  destruct (pnl_parity atm_engine [90; 100; 110] 5)
    as (callPnl & putPnl & Hout & Hpar); [lra | discriminate |].
  exists callPnl, putPnl. split; [exact Hout |].
  apply (Hpar 2%nat 110). reflexivity.
Defined.

(** X11: the loss is capped by the purchase price.  No entry of either
    curve is below [- purchase_price]; the call curve sits exactly there at
    spots up to the strike, the put curve at spots from the strike on. *)
Theorem pnl_loss_floor (self : BlackScholes) (spot_range : list R)
  (purchase_price : R) :
  0 <= purchase_price ->
  spot_range <> [] ->
  exists callPnl putPnl : list R,
    outcome (calculate_pnl spot_range purchase_price self) =
      Ok (callPnl, putPnl)
    /\ Forall (fun v => - purchase_price <= v) callPnl
    /\ Forall (fun v => - purchase_price <= v) putPnl
    /\ forall (i : nat) (spot : R),
         nth_error spot_range i = Some spot ->
         (spot <= strike_price self ->
          nth_error callPnl i = Some (- purchase_price))
         /\ (strike_price self <= spot ->
             nth_error putPnl i = Some (- purchase_price)).
Proof.
  intros Hp Hne. eexists _, _. rewrite calculate_pnl_ok by assumption.
  split; [reflexivity |].
  split; [| split].
  - apply Forall_map, Forall_forall. intros s _.
    generalize (Rmax_l 0 (s - strike_price self)). lra.
  - apply Forall_map, Forall_forall. intros s _.
    generalize (Rmax_l 0 (strike_price self - s)). lra.
  - intros i spot Hi. rewrite !nth_error_map, Hi. cbn.
    split; intros Hs; do 2 f_equal; rewrite Rmax_left; lra.
Qed.

Lemma pnl_loss_floor_witness :
  exists callPnl putPnl : list R,
    outcome (calculate_pnl [90; 100; 110] 5 atm_engine) =
      Ok (callPnl, putPnl)
    /\ Forall (fun v => - (5) <= v) callPnl
    /\ Forall (fun v => - (5) <= v) putPnl
    /\ nth_error callPnl 0 = Some (- (5))
    /\ nth_error putPnl 2 = Some (- (5)).
Proof.
  destruct (pnl_loss_floor atm_engine [90; 100; 110] 5)
    as (callPnl & putPnl & Hout & Hc & Hq & Hflat); [lra | discriminate |].
  exists callPnl, putPnl.
  split; [exact Hout |]. split; [exact Hc |]. split; [exact Hq |].
  split.
  - apply (Hflat 0%nat 90); [reflexivity | cbn; lra].
  - apply (Hflat 2%nat 110); [reflexivity | cbn; lra].
Defined.

(** X12: break-even points, in exact-real arithmetic.  With a positive
    purchase price the call curve
    is zero exactly at [spot = K + purchase_price] and the put curve exactly
    at [spot = K - purchase_price]. *)
Theorem pnl_break_even (self : BlackScholes) (spot_range : list R)
  (purchase_price : R) :
  0 < purchase_price ->
  spot_range <> [] ->
  exists callPnl putPnl : list R,
    outcome (calculate_pnl spot_range purchase_price self) =
      Ok (callPnl, putPnl)
    /\ forall (i : nat) (spot : R),
         nth_error spot_range i = Some spot ->
         (nth_error callPnl i = Some 0 <->
          spot = strike_price self + purchase_price)
         /\ (nth_error putPnl i = Some 0 <->
             spot = strike_price self - purchase_price).
Proof.
  intros Hp Hne. eexists _, _. rewrite calculate_pnl_ok by (lra || assumption).
  split; [reflexivity |].
  intros i spot Hi. rewrite !nth_error_map, Hi. cbn.
  unfold Rmax.
  destruct (Rle_dec 0 (spot - strike_price self)),
    (Rle_dec 0 (strike_price self - spot));
    (split; (split; [intros E; inversion E; lra | intros E; f_equal; lra])).
Qed.

Lemma pnl_break_even_witness :
  exists callPnl putPnl : list R,
    outcome (calculate_pnl [95; 100; 105] 5 atm_engine) =
      Ok (callPnl, putPnl)
    /\ (nth_error callPnl 2 = Some 0 <-> 105 = 100 + 5)
    /\ (nth_error putPnl 0 = Some 0 <-> 95 = 100 - 5).
Proof.
  destruct (pnl_break_even atm_engine [95; 100; 105] 5)
    as (callPnl & putPnl & Hout & Hbe); [lra | discriminate |].
  exists callPnl, putPnl. split; [exact Hout |]. split.
  - apply (Hbe 2%nat 105). reflexivity.
  - apply (Hbe 0%nat 95). reflexivity.
Defined.

(** ** Lists written by index *)

Lemma nth_error_setitem_eq {A : Type} (l : list A) (i : nat) (v : A) :
  nth_error l i <> None -> nth_error (setitem l i v) i = Some v.
Proof.
  revert i. induction l as [| x l IH]; intros [| i] H; simpl in *;
    try congruence.
  now apply IH.
Qed.

Lemma nth_error_setitem_neq {A : Type} (l : list A) (i k : nat) (v : A) :
  i <> k -> nth_error (setitem l i v) k = nth_error l k.
Proof.
  revert i k. induction l as [| x l IH]; intros [| i] [| k] H; simpl;
    try reflexivity; try congruence.
  apply IH. congruence.
Qed.

Lemma length_setitem {A : Type} (l : list A) (i : nat) (v : A) :
  List.length (setitem l i v) = List.length l.
Proof.
  revert i. induction l as [| x l IH]; intros [| i]; simpl; try reflexivity.
  now rewrite IH.
Qed.

Lemma cell_setitem2_eq (m : matrix) (i j : nat) (v : R) :
  cell m i j <> None -> cell (setitem2 m i j v) i j = Some v.
Proof.
  unfold cell, setitem2. destruct (nth_error m i) as [row |] eqn:E;
    [| congruence].
  intros Hj. rewrite nth_error_setitem_eq by congruence.
  now apply nth_error_setitem_eq.
Qed.

Lemma cell_setitem2_neq (m : matrix) (i j i' j' : nat) (v : R) :
  (i, j) <> (i', j') -> cell (setitem2 m i j v) i' j' = cell m i' j'.
Proof.
  unfold cell, setitem2. intros Hne.
  destruct (nth_error m i) as [row |] eqn:E; [| reflexivity].
  destruct (Nat.eq_dec i i') as [<- | Hi].
  - rewrite nth_error_setitem_eq, E by congruence.
    apply nth_error_setitem_neq. congruence.
  - now rewrite nth_error_setitem_neq.
Qed.

Lemma shape_setitem2 (m : matrix) (i j : nat) (v : R) :
  map (@List.length R) (setitem2 m i j v) = map (@List.length R) m.
Proof.
  unfold setitem2. destruct (nth_error m i) as [row |] eqn:E;
    [| reflexivity].
  revert i E. induction m as [| r m IH]; intros [| i] E; simpl in *;
    try discriminate.
  - inversion E; subst. now rewrite length_setitem.
  - f_equal. now apply IH.
Qed.

(** A run of indexed writes: a position that is written ends up holding
    the value written there, the others keep what they held. *)
Section Writes.
Variable W : Type.
Variable pos : W -> nat * nat.
Variable val : W -> R.

Definition write (m : matrix) (w : W) : matrix :=
  setitem2 m (fst (pos w)) (snd (pos w)) (val w).

Lemma fold_write_defined (ws : list W) (m : matrix) (i j : nat) :
  cell m i j <> None -> cell (fold_left write ws m) i j <> None.
Proof.
  revert m. induction ws as [| w ws IH]; intros m H; simpl; [exact H |].
  apply IH. unfold write.
  destruct (Nat.eq_dec (fst (pos w)) i) as [<- | Hi].
  - destruct (Nat.eq_dec (snd (pos w)) j) as [<- | Hj].
    + now rewrite cell_setitem2_eq.
    + rewrite cell_setitem2_neq by congruence. exact H.
  - rewrite cell_setitem2_neq by congruence. exact H.
Qed.

Lemma fold_write_frame (ws : list W) (m : matrix) (i j : nat) :
  (forall w : W, In w ws -> pos w <> (i, j)) ->
  cell (fold_left write ws m) i j = cell m i j.
Proof.
  revert m. induction ws as [| w ws IH]; intros m H; simpl; [reflexivity |].
  rewrite IH by (intros w' Hw'; apply H; now right).
  unfold write. apply cell_setitem2_neq.
  rewrite <- surjective_pairing. apply H. now left.
Qed.

Lemma shape_fold_write (ws : list W) (m : matrix) :
  map (@List.length R) (fold_left write ws m) = map (@List.length R) m.
Proof.
  revert m. induction ws as [| w ws IH]; intros m; simpl; [reflexivity |].
  rewrite IH. apply shape_setitem2.
Qed.

Lemma pos_eq_dec (p q : nat * nat) : {p = q} + {p <> q}.
Proof. decide equality; apply Nat.eq_dec. Defined.

Lemma fold_write_cell (ws : list W) (m : matrix) (w : W) :
  (forall a b : W, In a ws -> In b ws -> pos a = pos b -> val a = val b) ->
  In w ws ->
  cell m (fst (pos w)) (snd (pos w)) <> None ->
  cell (fold_left write ws m) (fst (pos w)) (snd (pos w)) = Some (val w).
Proof.
  revert m w. induction ws as [| a ws IH]; intros m w Huniq Hin Hdef;
    [contradiction |].
  simpl.
  destruct (in_dec pos_eq_dec (pos w) (map pos ws)) as [Hlater | Hlast].
  - apply in_map_iff in Hlater. destruct Hlater as (b & Hpos & Hb).
    rewrite <- Hpos, (Huniq w b Hin (or_intror Hb) (eq_sym Hpos)).
    apply IH.
    + intros x y Hx Hy. apply Huniq; now right.
    + exact Hb.
    + rewrite Hpos. unfold write.
      destruct (pos_eq_dec (pos a) (pos w)) as [E | E].
      * rewrite E, cell_setitem2_eq by exact Hdef. discriminate.
      * rewrite cell_setitem2_neq
          by (rewrite <- !surjective_pairing; exact E).
        exact Hdef.
  - rewrite fold_write_frame.
    + destruct Hin as [-> | Hin].
      * now apply cell_setitem2_eq.
      * exfalso. apply Hlast, in_map, Hin.
    + intros b Hb E. apply Hlast.
      rewrite (surjective_pairing (pos w)), <- E.
      now apply in_map.
Qed.
End Writes.

(** ** Loops *)

Lemma for_each_fold {A St : Type} (xs : list A)
  (body : A -> St -> result St) (step : St -> A -> St) (st : St) :
  (forall x : A, In x xs -> forall s : St, body x s = Ok (step s x)) ->
  for_each xs body st = Ok (fold_left step xs st).
Proof.
  revert st. induction xs as [| x xs IH]; intros st H; simpl;
    [reflexivity |].
  rewrite (H x (or_introl eq_refl)). apply IH.
  intros y Hy. apply H. now right.
Qed.

Lemma for_each_ok_iff {A St : Type} (xs : list A)
  (body : A -> St -> result St) (good : A -> Prop) (st : St) :
  (forall (x : A) (s : St), (exists s', body x s = Ok s') <-> good x) ->
  (exists st', for_each xs body st = Ok st') <-> Forall good xs.
Proof.
  intros Hbody. revert st. induction xs as [| x xs IH]; intros st; simpl.
  - split; [constructor | eauto].
  - destruct (body x st) as [s' | e] eqn:E.
    + rewrite IH. split.
      * intros Hxs. constructor; [| exact Hxs]. apply (Hbody x st). eauto.
      * intros Hall. now inversion Hall.
    + split.
      * intros [st' Hst']. discriminate.
      * intros Hall. inversion Hall as [| ? ? Hx _]; subst.
        apply (Hbody x st) in Hx. destruct Hx as [s' Hs']. congruence.
Qed.

Lemma fold_left_flat_map {A B St : Type} (step : St -> B -> St)
  (g : A -> list B) (xs : list A) (st : St) :
  fold_left step (flat_map g xs) st
  = fold_left (fun s x => fold_left step (g x) s) xs st.
Proof.
  revert st. induction xs as [| x xs IH]; intros st; simpl; [reflexivity |].
  now rewrite fold_left_app, IH.
Qed.

Lemma in_enumerate_from {A : Type} (l : list A) (start i : nat) (x : A) :
  In (i, x) (enumerate_from start l) <->
  (start <= i)%nat /\ nth_error l (i - start) = Some x.
Proof.
  revert start. induction l as [| y l IH]; intros start; simpl.
  - split; [contradiction |]. intros [_ H].
    destruct (i - start)%nat; discriminate.
  - rewrite IH. split.
    + intros [E | [Hle Hnth]].
      * inversion E; subst. rewrite Nat.sub_diag. auto.
      * split; [auto with arith |].
        replace (i - start)%nat with (Datatypes.S (i - Datatypes.S start))
          by (clear - Hle;
              rewrite <- Nat.sub_succ_l by exact Hle; reflexivity).
        exact Hnth.
    + intros [Hle Hnth].
      destruct (Nat.eq_dec start i) as [-> | Hne].
      * left. rewrite Nat.sub_diag in Hnth. simpl in Hnth. congruence.
      * right. assert (Hlt : (Datatypes.S start <= i)%nat).
        { clear - Hle Hne. apply Nat.le_neq. auto. }
        split; [exact Hlt |].
        replace (i - start)%nat with (Datatypes.S (i - Datatypes.S start))
          in Hnth
          by (clear - Hlt;
              rewrite <- Nat.sub_succ_l by exact Hlt; reflexivity).
        exact Hnth.
Qed.

Lemma in_enumerate {A : Type} (l : list A) (i : nat) (x : A) :
  In (i, x) (enumerate l) <-> nth_error l i = Some x.
Proof.
  unfold enumerate. rewrite in_enumerate_from, Nat.sub_0_r.
  split; [tauto | auto with arith].
Qed.

Lemma Forall_enumerate {A : Type} (P : A -> Prop) (l : list A) :
  Forall (fun ix => P (snd ix)) (enumerate l) <-> Forall P l.
Proof.
  rewrite !Forall_forall. split.
  - intros H x Hx. apply In_nth_error in Hx. destruct Hx as [i Hi].
    apply (H (i, x)). now apply in_enumerate.
  - intros H [i x] Hix. apply in_enumerate in Hix.
    apply H. eapply nth_error_In, Hix.
Qed.

(** ** The price grids *)

Lemma fold_left_pair {A B C : Type} (f : A -> C -> A) (g : B -> C -> B)
  (ws : list C) (a : A) (b : B) :
  fold_left (fun s w => (f (fst s) w, g (snd s) w)) ws (a, b)
  = (fold_left f ws a, fold_left g ws b).
Proof.
  revert a b. induction ws as [| w ws IH]; intros a b; simpl;
    [reflexivity | apply IH].
Qed.

Lemma fold_left_map_arg {A B St : Type} (step : St -> B -> St) (h : A -> B)
  (xs : list A) (st : St) :
  fold_left step (map h xs) st = fold_left (fun s x => step s (h x)) xs st.
Proof.
  revert st. induction xs as [| x xs IH]; intros st; simpl;
    [reflexivity | apply IH].
Qed.

Lemma in_grid_points (vol_range spot_range : list R) (i j : nat)
  (vol spot : R) :
  In ((i, vol), (j, spot)) (grid_points vol_range spot_range) <->
  nth_error vol_range i = Some vol /\ nth_error spot_range j = Some spot.
Proof.
  unfold grid_points. rewrite in_flat_map. split.
  - intros ([i' vol'] & Hiv & Hin). apply in_map_iff in Hin.
    destruct Hin as ([j' spot'] & E & Hjs). inversion E; subst.
    split; now apply in_enumerate.
  - intros [Hv Hs]. exists (i, vol). split; [now apply in_enumerate |].
    apply in_map. now apply in_enumerate.
Qed.

Lemma grid_points_functional (T K r : R) (vol_range spot_range : list R)
  (a b : grid_point) :
  In a (grid_points vol_range spot_range) ->
  In b (grid_points vol_range spot_range) ->
  point_pos a = point_pos b ->
  point_call T K r a = point_call T K r b
  /\ point_put T K r a = point_put T K r b.
Proof.
  destruct a as [[i vol] [j spot]], b as [[i' vol'] [j' spot']].
  rewrite !in_grid_points. intros [Hv Hs] [Hv' Hs'] E.
  unfold point_pos in E. simpl in E. inversion E; subst.
  assert (vol = vol') by congruence. assert (spot = spot') by congruence.
  subst. split; reflexivity.
Qed.

Lemma cell_zeros (rows cols i j : nat) :
  (i < rows)%nat -> (j < cols)%nat -> cell (np_zeros rows cols) i j = Some 0.
Proof.
  intros Hi Hj. unfold cell, np_zeros.
  rewrite nth_error_repeat by exact Hi. now apply nth_error_repeat.
Qed.

(** The nested loop as one run of writes into the two zero grids. *)
Lemma heatmap_prices_writes (T K r : R) (vol_range spot_range : list R) :
  0 < T -> 0 < K -> 0 <= r ->
  Forall (Rlt 0) vol_range -> Forall (Rlt 0) spot_range ->
  let zeros :=
    np_zeros (List.length vol_range) (List.length spot_range) in
  let points := grid_points vol_range spot_range in
  heatmap_prices T K r vol_range spot_range =
    Ok (fold_left (write grid_point point_pos (point_call T K r)) points
          zeros,
        fold_left (write grid_point point_pos (point_put T K r)) points
          zeros).
Proof.
  intros HT HK Hr Hvols Hspots zeros points.
  set (step := fun (s : matrix * matrix) (w : grid_point) =>
                 (write grid_point point_pos (point_call T K r) (fst s) w,
                  write grid_point point_pos (point_put T K r) (snd s) w)).
  unfold heatmap_prices. fold zeros.
  rewrite (for_each_fold _ _
             (fun s iv =>
                fold_left step (map (pair iv) (enumerate spot_range)) s)).
  - rewrite <- fold_left_flat_map. unfold step.
    now rewrite fold_left_pair.
  - intros [i vol] Hiv grids. apply in_enumerate, nth_error_In in Hiv.
    rewrite Forall_forall in Hvols. specialize (Hvols vol Hiv).
    rewrite fold_left_map_arg. apply for_each_fold.
    intros [j spot] Hjs [calls puts].
    apply in_enumerate, nth_error_In in Hjs.
    rewrite Forall_forall in Hspots. specialize (Hspots spot Hjs).
    rewrite init_valid by (unfold valid_inputs; tauto).
    reflexivity.
Qed.

(** Shape and content of the grids the loop returns. *)
Lemma heatmap_prices_values (T K r : R) (vol_range spot_range : list R) :
  0 < T -> 0 < K -> 0 <= r ->
  Forall (Rlt 0) vol_range -> Forall (Rlt 0) spot_range ->
  exists call_prices put_prices : matrix,
    heatmap_prices T K r vol_range spot_range = Ok (call_prices, put_prices)
    /\ map (@List.length R) call_prices
       = repeat (List.length spot_range) (List.length vol_range)
    /\ map (@List.length R) put_prices
       = repeat (List.length spot_range) (List.length vol_range)
    /\ forall (i j : nat) (vol spot : R),
         nth_error vol_range i = Some vol ->
         nth_error spot_range j = Some spot ->
         cell call_prices i j = Some (fst (grid_value T K r vol spot))
         /\ cell put_prices i j = Some (snd (grid_value T K r vol spot)).
Proof.
  intros HT HK Hr Hvols Hspots.
  eexists _, _. split; [now apply heatmap_prices_writes |].
  assert (Hshape : map (@List.length R)
                     (np_zeros (List.length vol_range)
                        (List.length spot_range))
                   = repeat (List.length spot_range)
                       (List.length vol_range)).
  { unfold np_zeros. rewrite map_repeat. now rewrite repeat_length. }
  split; [now rewrite shape_fold_write |].
  split; [now rewrite shape_fold_write |].
  intros i j vol spot Hv Hs.
  assert (Hin : In ((i, vol), (j, spot)) (grid_points vol_range spot_range))
    by now apply in_grid_points.
  assert (Hdef : cell (np_zeros (List.length vol_range)
                         (List.length spot_range)) i j <> None).
  { rewrite cell_zeros; [discriminate | |];
      apply nth_error_Some; congruence. }
  split.
  - apply (fold_write_cell grid_point point_pos (point_call T K r)
             _ _ ((i, vol), (j, spot))); [| exact Hin | exact Hdef].
    intros a b Ha Hb E.
    now destruct (grid_points_functional T K r _ _ a b Ha Hb E).
  - apply (fold_write_cell grid_point point_pos (point_put T K r)
             _ _ ((i, vol), (j, spot))); [| exact Hin | exact Hdef].
    intros a b Ha Hb E.
    now destruct (grid_points_functional T K r _ _ a b Ha Hb E).
Qed.

(** X13: with positive maturity and strike, a non-negative rate and
    positive volatilities and spots, the nested loop returns two grids with
    one row per volatility and one column per spot, and the cell at row [i],
    column [j] holds the call (put) price of the engine constructed for the
    [i]-th volatility and the [j]-th spot. *)
Theorem heatmap_prices_cells (T K r : R) (vol_range spot_range : list R) :
  0 < T -> 0 < K -> 0 <= r ->
  Forall (Rlt 0) vol_range -> Forall (Rlt 0) spot_range ->
  exists call_prices put_prices : matrix,
    heatmap_prices T K r vol_range spot_range = Ok (call_prices, put_prices)
    /\ List.length call_prices = List.length vol_range
    /\ List.length put_prices = List.length vol_range
    /\ Forall (fun row => List.length row = List.length spot_range)
         call_prices
    /\ Forall (fun row => List.length row = List.length spot_range)
         put_prices
    /\ forall (i j : nat) (vol spot : R),
         nth_error vol_range i = Some vol ->
         nth_error spot_range j = Some spot ->
         exists (bs_temp : BlackScholes) (c p : R),
           __init__ T K spot vol r = Ok bs_temp
           /\ outcome (calculate_prices bs_temp) = Ok (c, p)
           /\ cell call_prices i j = Some c
           /\ cell put_prices i j = Some p.
Proof.
  intros HT HK Hr Hvols Hspots.
  destruct (heatmap_prices_values T K r vol_range spot_range
              HT HK Hr Hvols Hspots)
    as (calls & puts & Hrun & Hsc & Hsp & Hcells).
  assert (Hrows : forall m : matrix,
             map (@List.length R) m
             = repeat (List.length spot_range) (List.length vol_range) ->
             List.length m = List.length vol_range
             /\ Forall (fun row => List.length row = List.length spot_range)
                  m).
  { intros m Hm. split.
    - rewrite <- (length_map (@List.length R) m), Hm.
      apply repeat_length.
    - apply Forall_forall. intros row Hrow.
      apply (in_map (@List.length R)) in Hrow. rewrite Hm in Hrow.
      now apply repeat_spec in Hrow. }
  destruct (Hrows calls Hsc) as [Hlc Hfc].
  destruct (Hrows puts Hsp) as [Hlp Hfp].
  exists calls, puts. repeat (split; [assumption |]).
  intros i j vol spot Hv Hs.
  destruct (Hcells i j vol spot Hv Hs) as [Hc Hp].
  exists (built T K spot vol r). eexists _, _.
  split.
  { apply init_valid. unfold valid_inputs.
    rewrite Forall_forall in Hvols, Hspots.
    repeat split; try assumption.
    - eapply Hspots, nth_error_In, Hs.
    - eapply Hvols, nth_error_In, Hv. }
  split; [reflexivity |]. split; [exact Hc | exact Hp].
Qed.

Lemma heatmap_prices_cells_witness :
  exists call_prices put_prices : matrix,
    heatmap_prices 1 100 0.05 [0.1; 0.2] [90; 100; 110]
    = Ok (call_prices, put_prices)
    /\ List.length call_prices = 2%nat
    /\ exists (bs_temp : BlackScholes) (c p : R),
         __init__ 1 100 110 0.2 0.05 = Ok bs_temp
         /\ outcome (calculate_prices bs_temp) = Ok (c, p)
         /\ cell call_prices 1 2 = Some c
         /\ cell put_prices 1 2 = Some p.
Proof.
  destruct (heatmap_prices_cells 1 100 0.05 [0.1; 0.2] [90; 100; 110])
    as (calls & puts & Hrun & Hlc & _ & _ & _ & Hcells);
    try lra; try (repeat constructor; lra).
  exists calls, puts. split; [exact Hrun |]. split; [exact Hlc |].
  apply (Hcells 1%nat 2%nat 0.2 110); reflexivity.
Defined.

(** X14: the loop returns grids exactly when it constructs no engine at
    all (one of the two ranges is empty) or every engine it constructs is
    valid: maturity and strike positive, rate non-negative, every
    volatility and every spot positive.  Otherwise it raises. *)
Theorem heatmap_prices_succeeds_iff (T K r : R)
  (vol_range spot_range : list R) :
  (exists grids : matrix * matrix,
     heatmap_prices T K r vol_range spot_range = Ok grids) <->
  vol_range = [] \/ spot_range = []
  \/ (0 < T /\ 0 < K /\ 0 <= r
      /\ Forall (Rlt 0) vol_range /\ Forall (Rlt 0) spot_range).
Proof.
  unfold heatmap_prices.
  rewrite (for_each_ok_iff _ _
             (fun iv => Forall (fun js => valid_inputs T K (snd js) (snd iv) r)
                          (enumerate spot_range))).
  - rewrite (Forall_enumerate
               (fun vol => Forall (fun js => valid_inputs T K (snd js) vol r)
                             (enumerate spot_range))).
    split.
    + intros Hall.
      destruct vol_range as [| vol0 vols]; [now left |].
      destruct spot_range as [| spot0 spots]; [right; now left |].
      right; right.
      assert (Hpoint : forall vol spot : R,
                 In vol (vol0 :: vols) -> In spot (spot0 :: spots) ->
                 valid_inputs T K spot vol r).
      { intros vol spot Hv Hs. rewrite Forall_forall in Hall.
        specialize (Hall vol Hv).
        rewrite (Forall_enumerate (fun s => valid_inputs T K s vol r))
          in Hall.
        rewrite Forall_forall in Hall. now apply Hall. }
      destruct (Hpoint vol0 spot0 (or_introl eq_refl) (or_introl eq_refl))
        as (HT & HK & _ & _ & Hr).
      repeat split; try assumption.
      * apply Forall_forall. intros vol Hv.
        now destruct (Hpoint vol spot0 Hv (or_introl eq_refl))
          as (_ & _ & _ & Hvol & _).
      * apply Forall_forall. intros spot Hs.
        now destruct (Hpoint vol0 spot (or_introl eq_refl) Hs)
          as (_ & _ & Hspot & _ & _).
    + intros [-> | [-> | (HT & HK & Hr & Hvols & Hspots)]].
      * constructor.
      * apply Forall_forall. intros vol _. constructor.
      * apply Forall_forall. intros vol Hv.
        apply (Forall_enumerate (fun s => valid_inputs T K s vol r)).
        apply Forall_forall. intros spot Hs.
        rewrite Forall_forall in Hvols, Hspots.
        unfold valid_inputs. repeat split; auto.
  - intros [i vol] grids. simpl snd.
    apply (for_each_ok_iff _ _
             (fun js => valid_inputs T K (snd js) vol r)).
    intros [j spot] [calls puts]. simpl snd. split.
    + intros [s' Hs'].
      destruct (__init__ T K spot vol r) as [bs |] eqn:E; [| discriminate].
      now destruct (init_inv _ _ _ _ _ _ E).
    + intros Hv. rewrite (init_valid _ _ _ _ _ Hv). eexists. reflexivity.
Qed.

(** X15: in exact-real arithmetic, in the grids the loop returns, the call
    price exceeds the put
    price at column [j] by [spot_j - K * exp(-r*T)] in every row: the
    difference of the two heat maps does not depend on the volatility. *)
Theorem heatmap_column_parity (T K r : R) (vol_range spot_range : list R) :
  0 < T -> 0 < K -> 0 <= r ->
  Forall (Rlt 0) vol_range -> Forall (Rlt 0) spot_range ->
  exists call_prices put_prices : matrix,
    heatmap_prices T K r vol_range spot_range = Ok (call_prices, put_prices)
    /\ forall (i j : nat) (vol spot : R),
         nth_error vol_range i = Some vol ->
         nth_error spot_range j = Some spot ->
         exists c p : R,
           cell call_prices i j = Some c
           /\ cell put_prices i j = Some p
           /\ c - p = spot - K * exp (- r * T).
Proof.
  intros HT HK Hr Hvols Hspots.
  destruct (heatmap_prices_values T K r vol_range spot_range
              HT HK Hr Hvols Hspots)
    as (calls & puts & Hrun & _ & _ & Hcells).
  exists calls, puts. split; [exact Hrun |].
  intros i j vol spot Hv Hs.
  destruct (Hcells i j vol spot Hv Hs) as [Hc Hp].
  eexists _, _. split; [exact Hc |]. split; [exact Hp |].
  cbn -[pow _calculate_d1_d2]. rewrite !cdf_opp. ring.
Qed.

Lemma heatmap_column_parity_witness :
  exists call_prices put_prices : matrix,
    heatmap_prices 1 100 0.05 [0.1; 0.2] [90; 100; 110]
    = Ok (call_prices, put_prices)
    /\ exists c p : R,
         cell call_prices 0 2 = Some c
         /\ cell put_prices 0 2 = Some p
         /\ c - p = 110 - 100 * exp (- (0.05) * 1).
Proof.
  destruct (heatmap_column_parity 1 100 0.05 [0.1; 0.2] [90; 100; 110])
    as (calls & puts & Hrun & Hcells);
    try lra; try (repeat constructor; lra).
  exists calls, puts. split; [exact Hrun |].
  apply (Hcells 0%nat 2%nat 0.1 110); reflexivity.
Defined.




(** ** The sample ranges *)

Lemma length_linspace (start stop : R) (num : nat) :
  List.length (np_linspace start stop num) = num.
Proof.
  unfold np_linspace. destruct (Nat.ltb 0 (num - 1));
    now rewrite !length_map, length_seq.
Qed.

Lemma nth_error_linspace (start stop : R) (num i : nat) :
  (i < num)%nat ->
  nth_error (np_linspace start stop num) i =
    Some (if Nat.ltb 0 (num - 1)
          then INR i * ((stop - start) / INR (num - 1)) + start
          else INR i * (stop - start) + start).
Proof.
  intros Hi. unfold np_linspace.
  assert (Hseq : nth_error (seq 0 num) i = Some i).
  { rewrite nth_error_seq. apply Nat.ltb_lt in Hi. now rewrite Hi. }
  destruct (Nat.ltb 0 (num - 1));
    now rewrite !nth_error_map, Hseq.
Qed.

(** Every sample is a weighted mean of the two ends. *)
Lemma linspace_between (start stop : R) (num : nat) (x : R) :
  In x (np_linspace start stop num) ->
  exists t : R, 0 <= t <= 1 /\ x = start + t * (stop - start).
Proof.
  intros Hx. apply In_nth_error in Hx. destruct Hx as [i Hi].
  assert (Hlt : (i < num)%nat).
  { rewrite <- (length_linspace start stop num).
    apply nth_error_Some. congruence. }
  rewrite nth_error_linspace in Hi by exact Hlt.
  destruct (Nat.ltb 0 (num - 1)) eqn:Hdiv; inversion Hi; subst x; clear Hi.
  - apply Nat.ltb_lt in Hdiv.
    assert (Hpos : 0 < INR (num - 1)) by now apply lt_0_INR.
    assert (Hle : INR i <= INR (num - 1)).
    { apply le_INR. clear - Hlt. apply Nat.lt_succ_r.
      rewrite <- Nat.sub_succ_l, Nat.sub_succ, Nat.sub_0_r; [exact Hlt |].
      destruct num; [inversion Hlt | auto with arith]. }
    exists (INR i / INR (num - 1)). split.
    + split.
      * apply Rmult_le_pos; [apply pos_INR |].
        left. now apply Rinv_0_lt_compat.
      * apply Rmult_le_reg_r with (INR (num - 1)); [exact Hpos |].
        unfold Rdiv. rewrite Rmult_assoc, Rinv_l by lra. lra.
    + field. lra.
  - apply Nat.ltb_ge in Hdiv.
    assert (i = 0%nat).
    { clear - Hlt Hdiv. destruct num as [| [| n]];
        [inversion Hlt | | simpl in Hdiv; inversion Hdiv].
      now apply Nat.lt_1_r. }
    subst i. exists 0. split; [lra |]. simpl. ring.
Qed.

Lemma linspace_lower_bound (lo start stop : R) (num : nat) :
  lo <= start -> lo <= stop ->
  Forall (fun x => lo <= x) (np_linspace start stop num).
Proof.
  intros Ha Hb. apply Forall_forall. intros x Hx.
  destruct (linspace_between _ _ _ _ Hx) as (t & [Ht0 Ht1] & ->).
  nra.
Qed.

Lemma linspace_upper_bound (hi start stop : R) (num : nat) :
  start <= hi -> stop <= hi ->
  Forall (fun x => x <= hi) (np_linspace start stop num).
Proof.
  intros Ha Hb. apply Forall_forall. intros x Hx.
  destruct (linspace_between _ _ _ _ Hx) as (t & [Ht0 Ht1] & ->).
  nra.
Qed.

Lemma sorted_INR_seq (first len : nat) :
  StronglySorted Rle (map INR (seq first len)).
Proof.
  revert first. induction len as [| len IH]; intros first; simpl;
    constructor.
  - apply IH.
  - apply Forall_map, Forall_forall. intros k Hk. apply in_seq in Hk.
    apply le_INR. destruct Hk as [Hk _]. auto with arith.
Qed.

Lemma linspace_sorted (start stop : R) (num : nat) :
  start <= stop -> StronglySorted Rle (np_linspace start stop num).
Proof.
  intros Hle. unfold np_linspace.
  assert (Hbase := sorted_INR_seq 0 num).
  destruct (Nat.ltb 0 (num - 1)) eqn:Hdiv.
  - apply Nat.ltb_lt in Hdiv.
    assert (Hpos : 0 < INR (num - 1)) by now apply lt_0_INR.
    assert (Hstep : 0 <= (stop - start) / INR (num - 1)).
    { apply Rmult_le_pos; [lra |]. left. now apply Rinv_0_lt_compat. }
    apply (StronglySorted_map Rle Rle); [intros a b Hab; lra |].
    revert Hbase. apply (StronglySorted_map Rle Rle).
    intros a b Hab. now apply Rmult_le_compat_r.
  - apply (StronglySorted_map Rle Rle); [intros a b Hab; lra |].
    revert Hbase. apply (StronglySorted_map Rle Rle).
    intros a b Hab. apply Rmult_le_compat_r; lra.
Qed.

(** X17: a range drawn with at least two points from [lowest <= highest]
    has exactly the requested number of samples, starts at [lowest], ends
    at [highest], is in non-decreasing order and stays between the two. *)
Theorem linspace_range (lowest highest : R) (points : nat) :
  (2 <= points)%nat ->
  lowest <= highest ->
  let range := np_linspace lowest highest points in
  List.length range = points
  /\ nth_error range 0 = Some lowest
  /\ nth_error range (points - 1) = Some highest
  /\ StronglySorted Rle range
  /\ Forall (fun x => lowest <= x <= highest) range.
Proof.
  intros Hpoints Hle range. unfold range.
  assert (Hdiv : Nat.ltb 0 (points - 1) = true).
  { apply Nat.ltb_lt. clear - Hpoints.
    destruct points as [| [| n]];
      [inversion Hpoints | | simpl; auto with arith].
    inversion Hpoints as [| ? H]. inversion H. }
  assert (Hpos : 0 < INR (points - 1)).
  { apply lt_0_INR. now apply Nat.ltb_lt. }
  split; [apply length_linspace |].
  split.
  { rewrite nth_error_linspace, Hdiv.
    - f_equal. simpl. ring.
    - eapply Nat.lt_le_trans; [| exact Hpoints]. auto with arith. }
  split.
  { rewrite nth_error_linspace, Hdiv.
    - f_equal. field. lra.
    - apply Nat.ltb_lt in Hdiv. clear - Hdiv.
      destruct points; [inversion Hdiv |].
      simpl. rewrite Nat.sub_0_r. auto with arith. }
  split; [now apply linspace_sorted |].
  apply Forall_forall. intros x Hx. split.
  - revert x Hx. apply Forall_forall, linspace_lower_bound; lra.
  - revert x Hx. apply Forall_forall, linspace_upper_bound; lra.
Qed.

Lemma linspace_range_witness :
  List.length (np_linspace 80 120 10) = 10%nat
  /\ nth_error (np_linspace 80 120 10) 0 = Some 80
  /\ nth_error (np_linspace 80 120 10) (10 - 1) = Some 120
  /\ StronglySorted Rle (np_linspace 80 120 10)
  /\ Forall (fun x => 80 <= x <= 120) (np_linspace 80 120 10).
Proof.
  apply (linspace_range 80 120 10).
  - repeat constructor.
  - lra.
Defined.

(** X18: when maturity, strike, both spot bounds and both volatility bounds
    are positive and the rate is not negative (the floors of the input
    widgets), every engine of the heat-map loop is constructed and the two
    grids are returned, with one row per volatility point and one column
    per spot point. *)
Theorem heatmap_over_sampled_ranges (T K r spot_min spot_max vol_min vol_max
  : R) (spot_points vol_points : nat) :
  0 < T -> 0 < K -> 0 <= r ->
  0 < spot_min -> 0 < spot_max -> 0 < vol_min -> 0 < vol_max ->
  let spot_range := np_linspace spot_min spot_max spot_points in
  let vol_range := np_linspace vol_min vol_max vol_points in
  exists call_prices put_prices : matrix,
    heatmap_prices T K r vol_range spot_range = Ok (call_prices, put_prices)
    /\ map (@List.length R) call_prices = repeat spot_points vol_points
    /\ map (@List.length R) put_prices = repeat spot_points vol_points.
Proof.
  intros HT HK Hr Hsmin Hsmax Hvmin Hvmax spot_range vol_range.
  assert (Hpos : forall a b : R, forall n : nat,
             0 < a -> 0 < b -> Forall (Rlt 0) (np_linspace a b n)).
  { intros a b n Ha Hb.
    assert (Hlo : Rmin a b <= a /\ Rmin a b <= b /\ 0 < Rmin a b).
    { unfold Rmin. destruct (Rle_dec a b); lra. }
    destruct Hlo as (H1 & H2 & H3).
    generalize (linspace_lower_bound (Rmin a b) a b n H1 H2).
    apply Forall_impl. intros x Hx. lra. }
  destruct (heatmap_prices_values T K r vol_range spot_range HT HK Hr)
    as (calls & puts & Hrun & Hsc & Hsp & _).
  - now apply Hpos.
  - now apply Hpos.
  - exists calls, puts. unfold spot_range, vol_range in *.
    rewrite !length_linspace in Hsc, Hsp. auto.
Qed.

Lemma heatmap_over_sampled_ranges_witness :
  exists call_prices put_prices : matrix,
    heatmap_prices 1 100 0.05 (np_linspace 0.1 0.3 10)
      (np_linspace 80 120 10)
    = Ok (call_prices, put_prices)
    /\ map (@List.length R) call_prices = repeat 10%nat 10%nat
    /\ map (@List.length R) put_prices = repeat 10%nat 10%nat.
Proof.
  apply (heatmap_over_sampled_ranges 1 100 0.05 80 120 0.1 0.3 10 10); lra.
Defined.

(** X19: the PnL call of the dashboard.  For a spot range sampled with at
    least one point and a non-negative purchase price, [calculate_pnl]
    returns two curves with one entry per sampled spot; when the lower spot
    bound does not exceed the upper one the call curve is non-decreasing
    and the put curve non-increasing. *)
Theorem pnl_over_sampled_range (self : BlackScholes) (spot_min spot_max
  purchase_price : R) (spot_points : nat) :
  (1 <= spot_points)%nat ->
  0 <= purchase_price ->
  exists callPnl putPnl : list R,
    outcome (calculate_pnl (np_linspace spot_min spot_max spot_points)
               purchase_price self)
    = Ok (callPnl, putPnl)
    /\ List.length callPnl = spot_points
    /\ List.length putPnl = spot_points
    /\ (spot_min <= spot_max ->
        StronglySorted Rle callPnl /\ StronglySorted Rge putPnl).
Proof.
  intros Hpoints Hp.
  assert (Hne : np_linspace spot_min spot_max spot_points <> []).
  { intros E. apply (f_equal (@List.length R)) in E.
    rewrite length_linspace in E. simpl in E. subst spot_points.
    inversion Hpoints. }
  eexists _, _. rewrite calculate_pnl_ok by assumption.
  split; [reflexivity |].
  rewrite !length_map, length_linspace.
  split; [reflexivity |]. split; [reflexivity |].
  intros Hle. assert (Hs := linspace_sorted _ _ spot_points Hle). split.
  - revert Hs. apply StronglySorted_map.
    intros a b. apply call_payoff_mono.
  - revert Hs. apply StronglySorted_map.
    intros a b. apply put_payoff_anti.
Qed.

Lemma pnl_over_sampled_range_witness :
  exists callPnl putPnl : list R,
    outcome (calculate_pnl (np_linspace 80 120 10) 5 atm_engine)
    = Ok (callPnl, putPnl)
    /\ List.length callPnl = 10%nat
    /\ List.length putPnl = 10%nat
    /\ (80 <= 120 ->
        StronglySorted Rle callPnl /\ StronglySorted Rge putPnl).
Proof.
  apply (pnl_over_sampled_range atm_engine 80 120 5 10).
  - repeat constructor.
  - lra.
Defined.
